(** * Verification of the live scoreboard and the game statistics table

    Shallow embedding of
    - [src/rcongui/src/components/Scoreboard/LiveScore.js]
      (component [LiveScore], its [getData] poll tick, the polling effect,
      and [LiveHeader]'s [nextMapString]);
    - [src/rcongui_public/src/components/game/statistics/game-table.tsx]
      (component [DataTable]: player filter options, export button,
      focus/highlight effect; and the [SubList] component). *)

From Stdlib Require Import String Ascii List Arith ZArith Lia Bool Sorted Permutation.
Import ListNotations.
Open Scope string_scope.
Set Warnings "-abstract-large-number".

(** ** Helpers shared by both files: JavaScript string rendering *)

(** Decimal rendering of a non-negative JS number, as template literals do. *)
Fixpoint digits_aux (fuel n : nat) (acc : string) : string :=
  match fuel with
  | 0 => acc
  | S f =>
      let acc' := String (ascii_of_nat (48 + n mod 10)) acc in
      if Nat.ltb n 10 then acc' else digits_aux f (n / 10) acc'
  end.

Definition string_of_nat (n : nat) : string := digits_aux (S n) n "".

(** [`${x}`] for a value that may be [undefined]. *)
Definition js_str_opt (o : option string) : string :=
  match o with Some s => s | None => "undefined" end.

Definition js_num_opt (o : option nat) : string :=
  match o with Some n => string_of_nat n | None => "undefined" end.

(** Stable insertion sort: [before y x] says that [y] must precede [x];
    an element is inserted before every element it does not have to follow,
    so ties keep their input order. *)
Fixpoint insert_by {A} (before : A -> A -> bool) (x : A) (l : list A) : list A :=
  match l with
  | [] => [x]
  | y :: l' => if before y x then y :: insert_by before x l' else x :: l
  end.

Fixpoint sort_by {A} (before : A -> A -> bool) (l : list A) : list A :=
  match l with
  | [] => []
  | x :: l' => insert_by before x (sort_by before l')
  end.

Module LiveScore.

(** ** Data returned by the two endpoints (after [fromJS]) *)

(** [result] of [get_live_scoreboard] / [get_live_game_stats]. Player rows
    are kept abstract as their names. *)
Record StatsResult := mkStatsResult {
  res_stats : list string;
  res_snapshot_timestamp : option nat;
  res_refresh_interval_sec : option nat
}.

(** The [stats] state: initially [new iList()]; after a successful fetch
    [fromJS(data.result || new iList())], i.e. either the immutable Map of
    the result or the empty immutable List. *)
Inductive StatsState :=
| StatsEmptyList
| StatsMap (r : StatsResult).

(** [fromJS(data.result || new iList())]: [None] is an absent (falsy)
    [result]; [fromJS] returns an immutable collection unchanged. *)
Definition fromJS_stats (result : option StatsResult) : StatsState :=
  match result with
  | Some r => StatsMap r
  | None => StatsEmptyList
  end.

(** [map_.get("refresh_interval_sec", 10)]. On an immutable List, a
    non-numeric key is not an index, so [get] returns the default. *)
Definition get_refresh_interval (m : StatsState) : nat :=
  match m with
  | StatsEmptyList => 10
  | StatsMap r =>
      match res_refresh_interval_sec r with Some v => v | None => 10 end
  end.

(** [stats.get("stats", new iList())]. *)
Definition scores (m : StatsState) : list string :=
  match m with
  | StatsEmptyList => []
  | StatsMap r => res_stats r
  end.

(** Server public info: the nested optional parts [nextMapString] reads. *)
Record MapInfo := mkMapInfo { pretty_name : option string }.
Record NextMap := mkNextMap { nm_map : option MapInfo }.
Record VoteStatus := mkVoteStatus {
  winning_maps : option (list (string * nat));
  total_votes : option nat
}.
Record ServerState := mkServerState {
  vote_status : option VoteStatus;
  next_map : option NextMap
}.

(** [new Map()] *)
Definition empty_server_state : ServerState := mkServerState None None.

(** ** [LiveHeader]'s [nextMapString] *)

(** [serverState.get("vote_status")?.get("winning_maps")?.get(0) || ["", 0]] *)
Definition top_voted (ss : ServerState) : string * nat :=
  match vote_status ss with
  | Some vs =>
      match winning_maps vs with
      | Some (w :: _) => w
      | _ => ("", 0)
      end
  | None => ("", 0)
  end.

(** [serverState.get("vote_status")?.get("total_votes")] *)
Definition total_votes_of (ss : ServerState) : option nat :=
  match vote_status ss with Some vs => total_votes vs | None => None end.

(** [serverState.get("next_map")?.get("map")?.get("pretty_name")] *)
Definition next_map_name (ss : ServerState) : option string :=
  match next_map ss with
  | Some nm => match nm_map nm with Some m => pretty_name m | None => None end
  | None => None
  end.

(** [map === nextMap]: a string is never strictly equal to [undefined]. *)
Definition js_eq_str_opt (s : string) (o : option string) : bool :=
  match o with Some t => String.eqb s t | None => false end.

Definition nextMapString (ss : ServerState) : string :=
  let '(map, nbVotes) := top_voted ss in
  let totalVotes := total_votes_of ss in
  let nextMap := next_map_name ss in
  if js_eq_str_opt map nextMap
  then "Nextmap " ++ js_str_opt nextMap ++ " with " ++ string_of_nat nbVotes
       ++ " out of " ++ js_num_opt totalVotes ++ " votes"
  else "Nextmap: " ++ js_str_opt nextMap.

(** ** Component state, poll tick and polling effect *)

(** A promise chain started by [getData] and not yet settled. *)
Inductive Fetch := FStats | FInfo.

Definition fetch_eqb (a b : Fetch) : bool :=
  match a, b with FStats, FStats | FInfo, FInfo => true | _, _ => false end.

(** How a fetch chain settles: [Ok] when [get] and [showResponse] resolve,
    [Err] when either rejects and [.catch(handle_http_errors)] runs. *)
Inductive Outcome (A : Type) := Ok (a : A) | Err.
Arguments Ok {A} a.
Arguments Err {A}.

(** The five [useState] cells of [LiveScore], plus the in-flight chains,
    the clock (ms) and the pending [setInterval] timer as
    (next fire time, period), both in ms. *)
Record LS := mkLS {
  stats : StatsState;
  serverState : ServerState;
  isLoading : bool;
  isPaused : bool;
  refreshIntervalSec : nat;
  inflight : list Fetch;
  now : nat;
  timer : option (nat * nat)
}.

Definition set_now (t : nat) (s : LS) : LS :=
  mkLS (stats s) (serverState s) (isLoading s) (isPaused s)
       (refreshIntervalSec s) (inflight s) t (timer s).

Definition set_inflight (l : list Fetch) (s : LS) : LS :=
  mkLS (stats s) (serverState s) (isLoading s) (isPaused s)
       (refreshIntervalSec s) l (now s) (timer s).

Definition set_timer (tm : option (nat * nat)) (s : LS) : LS :=
  mkLS (stats s) (serverState s) (isLoading s) (isPaused s)
       (refreshIntervalSec s) (inflight s) (now s) tm.

(** [getData]: [setIsLoading(true)], then both chains are started. *)
Definition getData (s : LS) : LS :=
  mkLS (stats s) (serverState s) true (isPaused s) (refreshIntervalSec s)
       (inflight s ++ [FStats; FInfo]) (now s) (timer s).

(** The statistics chain settles:
    [setStats(map_); setRefreshIntervalSec(map_.get("refresh_interval_sec", 10))]
    on success, nothing but the error handler on failure. *)
Definition stats_settled (o : Outcome (option StatsResult)) (s : LS) : LS :=
  match o with
  | Ok result =>
      let map_ := fromJS_stats result in
      mkLS map_ (serverState s) (isLoading s) (isPaused s)
           (get_refresh_interval map_) (inflight s) (now s) (timer s)
  | Err => s
  end.

(** The public-info chain settles:
    [setServerState(fromJS(data.result))] then [setIsLoading(false)] on
    success; on failure the [.catch] skips both. *)
Definition info_settled (o : Outcome ServerState) (s : LS) : LS :=
  match o with
  | Ok ss =>
      mkLS (stats s) ss false (isPaused s) (refreshIntervalSec s)
           (inflight s) (now s) (timer s)
  | Err => s
  end.

(** Remove one occurrence of a chain from the in-flight list. *)
Fixpoint remove_one (f : Fetch) (l : list Fetch) : option (list Fetch) :=
  match l with
  | [] => None
  | g :: l' =>
      if fetch_eqb f g then Some l'
      else option_map (cons g) (remove_one f l')
  end.

(** The effect with dependencies [[isPaused, refreshIntervalSec]]: after a
    render in which one of them changed, the old interval is cleared and,
    when not paused, [setInterval(getData, refreshIntervalSec * 1000)] is
    installed from the current time. Otherwise the timer is kept. *)
Definition interval_effect (prev next : LS) : LS :=
  if Bool.eqb (isPaused prev) (isPaused next)
     && Nat.eqb (refreshIntervalSec prev) (refreshIntervalSec next)
  then next
  else if isPaused next then set_timer None next
  else set_timer (Some (now next + refreshIntervalSec next * 1000,
                        refreshIntervalSec next * 1000)) next.

(** Mount: initial state, [useEffect(getData, [])] and the first run of the
    polling effect. *)
Definition mount (t : nat) : LS :=
  getData (mkLS StatsEmptyList empty_server_state true false 10 [] t
                (Some (t + 10 * 1000, 10 * 1000))).

(** Events of the component after mount. *)
Inductive Ev :=
| Fire                                                (* the interval fires *)
| StatsDone (t : nat) (o : Outcome (option StatsResult))
| InfoDone (t : nat) (o : Outcome ServerState)
| TogglePause (t : nat)                               (* [setPaused(!isPaused)] *)
.

Definition toggle_pause (s : LS) : LS :=
  mkLS (stats s) (serverState s) (isLoading s) (negb (isPaused s))
       (refreshIntervalSec s) (inflight s) (now s) (timer s).

(** One event; [None] when it cannot happen in the state. *)
Definition handle (s : LS) (e : Ev) : option LS :=
  match e with
  | Fire =>
      match timer s with
      | Some (f, p) =>
          if Nat.leb (now s) f
          then Some (set_timer (Some (f + p, p)) (getData (set_now f s)))
          else None
      | None => None
      end
  | StatsDone t o =>
      if Nat.leb (now s) t then
        match remove_one FStats (inflight s) with
        | Some l => Some (stats_settled o (set_inflight l (set_now t s)))
        | None => None
        end
      else None
  | InfoDone t o =>
      if Nat.leb (now s) t then
        match remove_one FInfo (inflight s) with
        | Some l => Some (info_settled o (set_inflight l (set_now t s)))
        | None => None
        end
      else None
  | TogglePause t =>
      if Nat.leb (now s) t then Some (toggle_pause (set_now t s)) else None
  end.

(** The event followed by the render and the polling effect. *)
Definition step (s : LS) (e : Ev) : option LS :=
  option_map (interval_effect s) (handle s e).

Fixpoint run (s : LS) (es : list Ev) : option LS :=
  match es with
  | [] => Some s
  | e :: es' => match step s e with Some s' => run s' es' | None => None end
  end.

End LiveScore.

Module GameTable.

(** ** [DataTable] of [game-table.tsx] *)

(** The fields of a [Player] row the component reads. *)
Record Player := mkPlayer {
  player : string;
  player_id : string;
  kills : nat
}.

(** An option of the [SelectBox]. *)
Record SelectOption := mkOption { value : string; label : string }.

(** [data.some(player => player.player === name)] *)
Definition data_has_name (data : list Player) (name : string) : bool :=
  existsb (fun p => String.eqb (player p) name) data.

(** [playerFilterOptions] *)
Definition playerFilterOptions (data : list Player) (playerFilter : list string)
  : list SelectOption :=
  map (fun p => mkOption (player p) (player p)) data
  ++ map (fun name => mkOption name name)
         (filter (fun name => negb (data_has_name data name)) playerFilter).

(** The [SelectBox] as rendered for given props and state: its options and
    its selected [value], which is the [playerFilter] state. The state is a
    [useState] cell of the component, so a change of the [data] prop keeps
    it. *)
Definition player_select (data : list Player) (playerFilter : list string)
  : list SelectOption * list string :=
  (playerFilterOptions data playerFilter, playerFilter).

(** *** Row model and export *)

(** State of the table that the displayed rows depend on. *)
Record TableState := mkTableState {
  ts_playerFilter : list string;
  ts_sort_kills_desc : bool     (* the [sorting] state is [[{id:'kills', desc}]] *)
}.

(** The initial table state: empty player filter, [sorting] is
    [[{ id: 'kills', desc: true }]], no column filters. *)
Definition initial_table_state : TableState := mkTableState [] true.

(** Displayed rows ([table.getRowModel().rows]) when no column filter is
    set: the data sorted by kills (descending or ascending). [y] goes before
    [x] when it strictly precedes it in the sort order. *)
Definition displayed_rows_unfiltered (desc : bool) (data : list Player) : list Player :=
  sort_by (fun y x => if desc then Nat.ltb (kills x) (kills y)
                      else Nat.ltb (kills y) (kills x)) data.

(** What the export button passes to the download collaborator:
    [onClick={() => download(data, `game-table-${tableId}`)}]. The table
    state is an argument to make its irrelevance explicit. *)
Definition export_click (st : TableState) (data : list Player) (tableId : string)
  : list Player * string :=
  (data, "game-table-" ++ tableId).

(** *** Focus / highlight effect *)

(** A DOM element: its [id] and its [classList]. *)
Record Elem := mkElem { el_id : string; classList : list string }.

(** The part of the world the effect touches: the focused-id context value,
    the document's elements, pending [setTimeout] callbacks as
    (fire time, element id), the ids scrolled into view, and the clock (ms). *)
Record FocusState := mkFocusState {
  focusedPlayerId : option string;
  dom : list Elem;
  timeouts : list (nat * string);
  scrolled : list string;
  clock : nat
}.

(** [document.getElementById(id)]: the first element with that id. *)
Definition getElementById (d : list Elem) (id : string) : option Elem :=
  find (fun e => String.eqb (el_id e) id) d.

(** Apply [f] to the first element with id [id] (the object
    [getElementById] returned). *)
Fixpoint update_elem (d : list Elem) (id : string) (f : Elem -> Elem) : list Elem :=
  match d with
  | [] => []
  | e :: d' =>
      if String.eqb (el_id e) id then f e :: d' else e :: update_elem d' id f
  end.

Definition highlight_style : list string :=
  ["bg-accent"; "outline-2"; "-outline-offset-2"; "outline-primary"; "outline"].

(** [classList.add(c)]: a token list holds each class once. *)
Definition class_add (cl : list string) (c : string) : list string :=
  if existsb (String.eqb c) cl then cl else cl ++ [c].

(** [classList.remove(c)] *)
Definition class_remove (cl : list string) (c : string) : list string :=
  filter (fun c' => negb (String.eqb c' c)) cl.

Definition add_classes (cs : list string) (e : Elem) : Elem :=
  mkElem (el_id e) (fold_left class_add cs (classList e)).

Definition remove_classes (cs : list string) (e : Elem) : Elem :=
  mkElem (el_id e) (fold_left class_remove cs (classList e)).

Definition row_id (pid : string) : string := "row-" ++ pid.

(** The effect body with dependency [[focusedPlayerId]]. Its final
    [setFocusedPlayerId(null)] re-renders, the effect runs again with
    [null] and returns at once, so only the value reset is observable. *)
Definition focus_effect (st : FocusState) : FocusState :=
  match focusedPlayerId st with
  | None => st
  | Some pid =>
      let id := row_id pid in
      match getElementById (dom st) id with
      | Some _ =>
          mkFocusState None
            (update_elem (dom st) id (add_classes highlight_style))
            (timeouts st ++ [(clock st + 2000, id)])
            (scrolled st ++ [id])
            (clock st)
      | None =>
          mkFocusState None (dom st) (timeouts st) (scrolled st) (clock st)
      end
  end.

Definition opt_str_eqb (a b : option string) : bool :=
  match a, b with
  | Some x, Some y => String.eqb x y
  | None, None => true
  | _, _ => false
  end.

(** [setFocusedPlayerId(v)] from outside: React skips the render when the
    value is unchanged; otherwise the effect runs after the render. *)
Definition set_focused (v : option string) (st : FocusState) : FocusState :=
  if opt_str_eqb (focusedPlayerId st) v then st
  else focus_effect (mkFocusState v (dom st) (timeouts st) (scrolled st) (clock st)).

(** Time passes to [t]: every timeout due by [t] runs, in order, removing
    the highlight classes from its element. *)
Fixpoint fire_due (t : nat) (ts : list (nat * string)) (d : list Elem)
  : list (nat * string) * list Elem :=
  match ts with
  | [] => ([], d)
  | (at_, id) :: ts' =>
      if Nat.leb at_ t
      then fire_due t ts' (update_elem d id (remove_classes highlight_style))
      else let '(rest, d') := fire_due t ts' d in ((at_, id) :: rest, d')
  end.

Definition advance (t : nat) (st : FocusState) : FocusState :=
  let '(ts, d) := fire_due t (timeouts st) (dom st) in
  mkFocusState (focusedPlayerId st) d ts (scrolled st) t.

(** Classes of the element with id [id], if any. *)
Definition classes_of (d : list Elem) (id : string) : option (list string) :=
  option_map classList (getElementById d id).

End GameTable.

Module SubList.

(** ** [SubList] of [game-table.tsx] *)

(** An immutable [Map] of a player's score breakdown, as its entries
    (key, value) in iteration order. *)
Definition ScoreMap := list (string * nat).

(** Immutable's [defaultComparator] ([a > b ? 1 : a < b ? -1 : 0]) on
    strings and on numbers. *)
Definition cmp_string (a b : string) : comparison := String.compare a b.
Definition cmp_number (a b : nat) : comparison := Nat.compare a b.

Definition is_gt (c : comparison) : bool :=
  match c with Gt => true | _ => false end.

(** Immutable's [sortFactory]: entries are sorted by [comparator] on the
    mapped value, ties broken by original position (a stable sort). *)
Definition sortFactory {A} (comparator : A -> A -> comparison)
    (mapper : string * nat -> A) (entries : ScoreMap) : ScoreMap :=
  sort_by (fun y x => is_gt (comparator (mapper x) (mapper y))) entries.

(** [data.sortBy((v, k) => k)] *)
Definition sortBy_key (data : ScoreMap) : ScoreMap :=
  sortFactory cmp_string fst data.

(** [data.sort()]: values under the default comparator. *)
Definition sort_values (data : ScoreMap) : ScoreMap :=
  sortFactory cmp_number snd data.

(** The rendered entries: [if (sortByKey) data = data.sortBy((v, k) => k)
    else data = data.sort().reverse()]. *)
Definition rendered_entries (sortByKey : bool) (data : ScoreMap) : ScoreMap :=
  if sortByKey then sortBy_key data else rev (sort_values data).

End SubList.

Module LiveScoreView.

(** ** Time strings of [LiveScore]: [Date.prototype.toISOString] *)

(** Times are integers in ms (seconds for the epochs the server sends), so
    [TimeClip]'s truncation does nothing. *)

Fixpoint zeros (n : nat) : string :=
  match n with 0 => "" | S k => String "0" (zeros k) end.

(** A non-negative integer in decimal, left-padded with zeros to [k]
    characters ([String(n).padStart(k, "0")]). *)
Definition zpad (k : nat) (n : Z) : string :=
  let s := string_of_nat (Z.to_nat n) in
  zeros (k - String.length s) ++ s.

(** The year field: four digits for years 0..9999, otherwise a sign and six
    digits (the expanded years of the ISO format). *)
Definition year_str (y : Z) : string :=
  if (0 <=? y)%Z && (y <=? 9999)%Z then zpad 4 y
  else (if (y <? 0)%Z then "-" else "+") ++ zpad 6 (Z.abs y).

(** Proleptic Gregorian (year, month, day) of a day number counted from
    1970-01-01, as [YearFromTime], [MonthFromTime] and [DateFromTime]
    compute it (all divisions are floor divisions). *)
Definition civil_from_days (z : Z) : Z * Z * Z :=
  let z' := (z + 719468)%Z in
  let era := (z' / 146097)%Z in
  let doe := (z' - era * 146097)%Z in
  let yoe := ((doe - doe / 1460 + doe / 36524 - doe / 146096) / 365)%Z in
  let doy := (doe - (365 * yoe + yoe / 4 - yoe / 100))%Z in
  let mp := ((5 * doy + 2) / 153)%Z in
  let d := (doy - (153 * mp + 2) / 5 + 1)%Z in
  let m := if (mp <? 10)%Z then (mp + 3)%Z else (mp - 9)%Z in
  let y := (yoe + era * 400)%Z in
  (if (m <=? 2)%Z then (y + 1)%Z else y, m, d).

Definition msPerDay : Z := 86400000.

(** [new Date(t).toISOString()]: [None] is the [RangeError] thrown for a
    time value outside [-8.64e15, 8.64e15] (an invalid date). *)
Definition toISOString (t : Z) : option string :=
  if (8640000000000000 <? Z.abs t)%Z then None
  else
    let day := (t / msPerDay)%Z in
    let tod := (t mod msPerDay)%Z in
    let '(y, m, d) := civil_from_days day in
    Some (year_str y ++ "-" ++ zpad 2 m ++ "-" ++ zpad 2 d ++ "T"
          ++ zpad 2 (tod / 3600000) ++ ":" ++ zpad 2 (tod / 60000 mod 60)
          ++ ":" ++ zpad 2 (tod / 1000 mod 60) ++ "." ++ zpad 3 (tod mod 1000)
          ++ "Z").

(** [durationToHour = (val) => new Date(val * 1000).toISOString().substr(11, 5)] *)
Definition durationToHour (val : Z) : option string :=
  option_map (substring 11 5) (toISOString (val * 1000)).

(** [started]: from [serverState.get("current_map", new Map()).get("start")],
    ["N/A"] when it is falsy (absent or 0), otherwise
    [new Date(Date.now() - new Date(started * 1000)).toISOString().substr(11, 8)].
    An out-of-range start makes the inner date invalid, the difference
    [NaN], and [toISOString] throw. *)
Definition started_str (now_ms : Z) (start : option Z) : option string :=
  match start with
  | None => Some "N/A"
  | Some s =>
      if (s =? 0)%Z then Some "N/A"
      else if (8640000000000000 <? Z.abs (s * 1000))%Z then None
      else option_map (substring 11 8) (toISOString (now_ms - s * 1000))
  end.

(** Clock reading "HH:MM:SS" / "HH:MM" of the time of day of [t] ms. *)
Definition clock_hms (t : Z) : string :=
  let tod := (t mod msPerDay)%Z in
  zpad 2 (tod / 3600000) ++ ":" ++ zpad 2 (tod / 60000 mod 60)
  ++ ":" ++ zpad 2 (tod / 1000 mod 60).

Definition clock_hm (t : Z) : string :=
  let tod := (t mod msPerDay)%Z in
  zpad 2 (tod / 3600000) ++ ":" ++ zpad 2 (tod / 60000 mod 60).

End LiveScoreView.

Module GameTableView.
Import GameTable.

(** ** Team counts of [DataTable] *)

Inductive TeamEnum := Axis | Allies | Mixed | Unknown.

Definition team_eqb (a b : TeamEnum) : bool :=
  match a, b with
  | Axis, Axis | Allies, Allies | Mixed, Mixed | Unknown, Unknown => true
  | _, _ => false
  end.

(** [const teamOptions = ['axis', 'allies', 'mixed', 'unknown']] *)
Definition teamOptions : list TeamEnum := [Axis; Allies; Mixed; Unknown].

(** [teamCounts]; [team_of p] stands for
    [getTeamFromAssociation(player.team)], which returns a [TeamEnum]. *)
Definition teamCounts (team_of : Player -> TeamEnum) (data : list Player) : list nat :=
  map (fun team => length (filter (fun p => team_eqb (team_of p) team) data))
      teamOptions.

(** The count shown on the "all" option: [data.length]. *)
Definition all_count (data : list Player) : nat := length data.

(** ** Table body of [DataTable] *)

(** A rendered [TableRow] of the body. *)
Inductive BodyRow :=
| PlaceholderRow (colSpan : nat)
| DataRow (number : nat) (row_dom_id : string) (original : Player).

(** [rows.map((row, index) => <TableRow id={'row-' + row.original.player_id}>
    <TableCell>{index + 1}</TableCell>...)] *)
Fixpoint number_rows (index : nat) (rows : list Player) : list BodyRow :=
  match rows with
  | [] => []
  | p :: rows' => DataRow (index + 1) (row_id (player_id p)) p :: number_rows (S index) rows'
  end.

(** [table.getRowModel().rows?.length ? rows... : <TableCell colSpan={columns.length + 1}>] *)
Definition render_body (ncolumns : nat) (rows : list Player) : list BodyRow :=
  match rows with
  | [] => [PlaceholderRow (ncolumns + 1)]
  | _ => number_rows 0 rows
  end.

(** The body's elements that carry an [id] (the data rows, class
    ["text-sm h-10"]); the placeholder row has none. *)
Definition body_dom (b : list BodyRow) : list Elem :=
  flat_map (fun r => match r with
                     | DataRow _ id _ => [mkElem id ["text-sm"; "h-10"]]
                     | PlaceholderRow _ => []
                     end) b.

End GameTableView.

(** * Properties of [LiveScore] *)

Module LiveScoreProofs.
Import LiveScore.

(** The polling effect touches only the timer. *)
Lemma interval_effect_fields (p n : LS) :
  stats (interval_effect p n) = stats n
  /\ serverState (interval_effect p n) = serverState n
  /\ isLoading (interval_effect p n) = isLoading n
  /\ isPaused (interval_effect p n) = isPaused n
  /\ refreshIntervalSec (interval_effect p n) = refreshIntervalSec n
  /\ inflight (interval_effect p n) = inflight n.
Proof.
  destruct n as [st ss ld ps ri fl nw tm]. unfold interval_effect. cbn.
  destruct (Bool.eqb (isPaused p) ps && Nat.eqb (refreshIntervalSec p) ri), ps;
    repeat split.
Qed.

(** When neither dependency changed, the timer is kept. *)
Lemma interval_effect_same (p n : LS) :
  isPaused p = isPaused n -> refreshIntervalSec p = refreshIntervalSec n ->
  interval_effect p n = n.
Proof.
  intros Hp Hr. unfold interval_effect.
  rewrite Hp, Hr, Bool.eqb_reflx, Nat.eqb_refl. reflexivity.
Qed.

(** When the interval changed and the view is not paused, a fresh
    interval is installed from the current time. *)
Lemma interval_effect_changed (p n : LS) :
  refreshIntervalSec p <> refreshIntervalSec n -> isPaused n = false ->
  timer (interval_effect p n)
  = Some (now n + refreshIntervalSec n * 1000, refreshIntervalSec n * 1000).
Proof.
  intros Hr Hn. unfold interval_effect.
  apply Nat.eqb_neq in Hr. rewrite Hr, andb_false_r, Hn. reflexivity.
Qed.

(** Inversion of a settle event of the statistics chain. *)
Lemma step_stats_inv (s : LS) t o s' :
  step s (StatsDone t o) = Some s' ->
  exists l, s' = interval_effect s (stats_settled o (set_inflight l (set_now t s))).
Proof.
  unfold step, handle. destruct (Nat.leb (now s) t); [|discriminate].
  destruct (remove_one FStats (inflight s)) as [l|]; [|discriminate].
  simpl. intros H. injection H as <-. exists l. reflexivity.
Qed.

Lemma step_info_inv (s : LS) t o s' :
  step s (InfoDone t o) = Some s' ->
  exists l, s' = interval_effect s (info_settled o (set_inflight l (set_now t s))).
Proof.
  unfold step, handle. destruct (Nat.leb (now s) t); [|discriminate].
  destruct (remove_one FInfo (inflight s)) as [l|]; [|discriminate].
  simpl. intros H. injection H as <-. exists l. reflexivity.
Qed.

Lemma step_fire_inv (s : LS) s' :
  step s Fire = Some s' ->
  exists f p, timer s = Some (f, p)
    /\ s' = interval_effect s (set_timer (Some (f + p, p)) (getData (set_now f s))).
Proof.
  unfold step, handle. destruct (timer s) as [[f p]|]; [|discriminate].
  destruct (Nat.leb (now s) f); [|discriminate].
  simpl. intros H. injection H as <-. exists f, p. split; reflexivity.
Qed.

(** The state a failed chain leaves: only the clock and the in-flight list
    move, so the polling effect keeps the timer. *)
Lemma failed_chain_keeps_state (s : LS) l t :
  interval_effect s (set_inflight l (set_now t s)) = set_inflight l (set_now t s).
Proof. apply interval_effect_same; reflexivity. Qed.

(** A successful public-info chain does not touch the effect's dependencies. *)
Lemma info_ok_keeps_timer (s : LS) ss l t :
  interval_effect s (info_settled (Ok ss) (set_inflight l (set_now t s)))
  = info_settled (Ok ss) (set_inflight l (set_now t s)).
Proof. apply interval_effect_same; reflexivity. Qed.

(** ** Loading flag *)

(** C2 (counterexample): after the first tick issues both fetches, the
    public-info fetch succeeding clears [isLoading] while the statistics
    fetch is still in flight. *)
Lemma C2_loading_cleared_with_stats_pending :
  match run (mount 0) [InfoDone 1 (Ok empty_server_state)] with
  | Some s => isLoading s = false /\ In FStats (inflight s)
  | None => False
  end.
Proof. vm_compute. split; [reflexivity | left; reflexivity]. Qed.

(** C2: a tick (the interval firing) sets [isLoading] to true and issues
    both fetches; a settling statistics fetch never changes [isLoading]; a
    successful public-info fetch sets it to false, whatever the statistics
    fetch is doing; a failed public-info fetch leaves it as it is. *)
Theorem C2_loading_follows_info_fetch (s s' : LS) (e : Ev) :
  step s e = Some s' ->
  (e = Fire -> isLoading s' = true
               /\ inflight s' = (inflight s ++ [FStats; FInfo])%list)
  /\ (forall t o, e = StatsDone t o -> isLoading s' = isLoading s)
  /\ (forall t ss, e = InfoDone t (Ok ss) -> isLoading s' = false)
  /\ (forall t, e = InfoDone t Err -> isLoading s' = isLoading s).
Proof.
  intros H. repeat split; intros; subst e.
  - apply step_fire_inv in H as (f & p & _ & ->).
    apply interval_effect_fields.
  - apply step_fire_inv in H as (f & p & _ & ->).
    rewrite (proj2 (proj2 (proj2 (proj2 (proj2 (interval_effect_fields _ _)))))).
    reflexivity.
  - apply step_stats_inv in H as (l & ->).
    rewrite (proj1 (proj2 (proj2 (interval_effect_fields _ _)))).
    destruct o; reflexivity.
  - apply step_info_inv in H as (l & ->).
    rewrite (proj1 (proj2 (proj2 (interval_effect_fields _ _)))).
    reflexivity.
  - apply step_info_inv in H as (l & ->).
    rewrite (proj1 (proj2 (proj2 (interval_effect_fields _ _)))).
    reflexivity.
Qed.

Lemma C2_loading_follows_info_fetch_witness :
  step (mount 0) (InfoDone 1 (Ok empty_server_state))
  = Some (mkLS StatsEmptyList empty_server_state false false 10 [FStats] 1
               (Some (10000, 10000)))
  /\ isLoading (mkLS StatsEmptyList empty_server_state false false 10 [FStats] 1
                     (Some (10000, 10000))) = false.
Proof.
  split; [vm_compute; reflexivity|].
  refine (proj1 (proj2 (proj2
    (C2_loading_follows_info_fetch (mount 0) _ _ _))) 1 empty_server_state
    eq_refl).
  vm_compute. reflexivity.
Defined.

(** ** Failed fetches *)

(** Two sample server states. *)
Definition ss_carentan : ServerState :=
  mkServerState None (Some (mkNextMap (Some (mkMapInfo (Some "Carentan"))))).

(** C3 (counterexample): in a tick whose statistics fetch fails, the
    public-info fetch still replaces the server-state snapshot; and in a
    tick whose public-info fetch fails, [isLoading] stays true. *)
Lemma C3_failed_tick_changes_state :
  match run (mount 0) [StatsDone 1 Err; InfoDone 2 (Ok ss_carentan)] with
  | Some s => serverState s = ss_carentan /\ serverState (mount 0) = empty_server_state
  | None => False
  end
  /\ match run (mount 0) [StatsDone 1 (Ok None); InfoDone 2 Err] with
     | Some s => isLoading s = true
     | None => False
     end.
Proof. vm_compute. repeat split. Qed.

(** C3: in any state, a failed fetch changes none of the state: a failed
    statistics fetch keeps the stats snapshot, the server state, the refresh
    interval, [isLoading], the pause flag and the timer; a failed public-info
    fetch keeps the same (so [isLoading] keeps its value). The other fetch
    still applies its own successful update: after a failed statistics
    fetch, a successful public-info fetch replaces the server state and
    clears [isLoading]; after a failed public-info fetch, a successful
    statistics fetch replaces the stats snapshot and the interval. *)
Theorem C3_failed_fetch_keeps_state (s : LS) :
  (forall t s1, step s (StatsDone t Err) = Some s1 ->
     stats s1 = stats s /\ serverState s1 = serverState s
     /\ refreshIntervalSec s1 = refreshIntervalSec s
     /\ isLoading s1 = isLoading s /\ isPaused s1 = isPaused s /\ timer s1 = timer s)
  /\ (forall t s2, step s (InfoDone t Err) = Some s2 ->
     stats s2 = stats s /\ serverState s2 = serverState s
     /\ refreshIntervalSec s2 = refreshIntervalSec s
     /\ isLoading s2 = isLoading s /\ isPaused s2 = isPaused s /\ timer s2 = timer s)
  /\ (forall t1 t2 ss s', run s [StatsDone t1 Err; InfoDone t2 (Ok ss)] = Some s' ->
     serverState s' = ss /\ isLoading s' = false /\ stats s' = stats s
     /\ refreshIntervalSec s' = refreshIntervalSec s /\ timer s' = timer s)
  /\ (forall t1 t2 r s', run s [InfoDone t1 Err; StatsDone t2 (Ok r)] = Some s' ->
     stats s' = fromJS_stats r
     /\ refreshIntervalSec s' = get_refresh_interval (fromJS_stats r)
     /\ serverState s' = serverState s /\ isLoading s' = isLoading s).
Proof.
  split; [|split; [|split]].
  - intros t s1 H1. apply step_stats_inv in H1 as (l1 & ->).
    cbn [stats_settled]. rewrite failed_chain_keeps_state. repeat split.
  - intros t s2 H2. apply step_info_inv in H2 as (l2 & ->).
    cbn [info_settled]. rewrite failed_chain_keeps_state. repeat split.
  - intros t1 t2 ss s'. cbn [run].
    destruct (step s (StatsDone t1 Err)) as [s1|] eqn:H1; [|discriminate].
    destruct (step s1 (InfoDone t2 (Ok ss))) as [s2|] eqn:H2; [|discriminate].
    intros H. injection H as <-.
    apply step_stats_inv in H1 as (l1 & ->).
    apply step_info_inv in H2 as (l2 & ->).
    cbn [stats_settled]. rewrite failed_chain_keeps_state, info_ok_keeps_timer.
    repeat split.
  - intros t1 t2 r s'. cbn [run].
    destruct (step s (InfoDone t1 Err)) as [s1|] eqn:H1; [|discriminate].
    destruct (step s1 (StatsDone t2 (Ok r))) as [s2|] eqn:H2; [|discriminate].
    intros H. injection H as <-.
    apply step_info_inv in H1 as (l1 & ->).
    apply step_stats_inv in H2 as (l2 & ->).
    cbn [info_settled]. rewrite failed_chain_keeps_state.
    destruct (interval_effect_fields
                (set_inflight l1 (set_now t1 s))
                (stats_settled (Ok r) (set_inflight l2 (set_now t2 (set_inflight l1 (set_now t1 s))))))
      as (Hst & Hss & Hld & _ & Hrf & _).
    rewrite Hst, Hss, Hld, Hrf. repeat split.
Qed.

(** A statistics failure after the public-info fetch of the first tick has
    already settled, and the public-info success of the next tick after a
    statistics failure. *)
Lemma C3_failed_fetch_keeps_state_witness :
  (exists s1, run (mount 0) [InfoDone 1 (Ok ss_carentan); StatsDone 2 Err] = Some s1
     /\ serverState s1 = ss_carentan /\ isLoading s1 = false)
  /\ (exists s2, run (mount 0) [StatsDone 1 Err; InfoDone 2 (Ok ss_carentan)] = Some s2
     /\ serverState s2 = ss_carentan /\ isLoading s2 = false /\ stats s2 = StatsEmptyList).
Proof.
  destruct (C3_failed_fetch_keeps_state
              (mkLS StatsEmptyList ss_carentan false false 10 [FStats] 1 (Some (10000, 10000))))
    as (H1 & _ & _ & _).
  destruct (C3_failed_fetch_keeps_state (mount 0)) as (_ & _ & H3 & _).
  split.
  - eexists. split; [vm_compute; reflexivity|].
    destruct (H1 2 _ ltac:(vm_compute; reflexivity)) as (_ & Hss & _ & Hld & _).
    rewrite Hss, Hld. split; reflexivity.
  - eexists. split; [vm_compute; reflexivity|].
    destruct (H3 1 2 ss_carentan _ ltac:(vm_compute; reflexivity)) as (Hss & Hld & Hst & _).
    rewrite Hss, Hld, Hst. repeat split.
Defined.

(** ** Next-map message *)

Definition ss_vote (top : string) (votes total : nat) (next : string) : ServerState :=
  mkServerState (Some (mkVoteStatus (Some [(top, votes)]) (Some total)))
                (Some (mkNextMap (Some (mkMapInfo (Some next))))).

(** C5: when the top-voted map is the already-decided next map the message
    carries the tallies, otherwise it is the tally-free template; the
    spec's two literal cases; and with no vote data at all the tallies fall
    back to [("", 0)] and an undefined total. *)
Theorem C5_next_map_message :
  (forall ss m n,
     top_voted ss = (m, n) -> next_map_name ss = Some m ->
     nextMapString ss
     = "Nextmap " ++ m ++ " with " ++ string_of_nat n ++ " out of "
       ++ js_num_opt (total_votes_of ss) ++ " votes")
  /\ (forall ss m n,
        top_voted ss = (m, n) -> next_map_name ss <> Some m ->
        nextMapString ss = "Nextmap: " ++ js_str_opt (next_map_name ss))
  /\ nextMapString (ss_vote "St. Mere Eglise" 5 8 "St. Mere Eglise")
     = "Nextmap St. Mere Eglise with 5 out of 8 votes"
  /\ nextMapString (ss_vote "St. Mere Eglise" 5 8 "Carentan")
     = "Nextmap: Carentan"
  /\ (forall ss,
        vote_status ss = None ->
        top_voted ss = ("", 0) /\ total_votes_of ss = None
        /\ nextMapString ss
           = if js_eq_str_opt "" (next_map_name ss)
             then "Nextmap  with 0 out of undefined votes"
             else "Nextmap: " ++ js_str_opt (next_map_name ss)).
Proof.
  split; [|split; [|split; [|split]]].
  - intros ss m n Ht Hn. unfold nextMapString. rewrite Ht, Hn.
    cbn [js_eq_str_opt js_str_opt]. rewrite String.eqb_refl. reflexivity.
  - intros ss m n Ht Hn. unfold nextMapString. rewrite Ht.
    destruct (next_map_name ss) as [nm|] eqn:E; [|reflexivity].
    cbn [js_eq_str_opt].
    destruct (String.eqb_spec m nm) as [->|]; [contradiction|reflexivity].
  - vm_compute. reflexivity.
  - vm_compute. reflexivity.
  - intros ss Hv. unfold nextMapString, top_voted, total_votes_of.
    rewrite Hv. split; [reflexivity | split; [reflexivity |]].
    destruct (next_map_name ss) as [nm|]; cbn [js_eq_str_opt]; [|reflexivity].
    destruct (String.eqb_spec "" nm) as [<-|]; reflexivity.
Qed.

(** ** Refresh interval *)

(** C6: a successful statistics response carrying a refresh interval [w]
    different from the current one sets the interval to [w] and schedules
    the next tick [w] seconds after the response; each later firing
    reschedules with the same period; in particular 10 then 30 gives the
    next tick 30000 ms after the response. *)
Theorem C6_server_interval_reschedules (s s' : LS) (t w : nat) (r : StatsResult) :
  isPaused s = false ->
  res_refresh_interval_sec r = Some w ->
  refreshIntervalSec s <> w ->
  step s (StatsDone t (Ok (Some r))) = Some s' ->
  refreshIntervalSec s' = w
  /\ timer s' = Some (t + w * 1000, w * 1000)
  /\ (refreshIntervalSec s = 10 -> w = 30 -> timer s' = Some (t + 30000, 30000))
  /\ (forall s'', step s' Fire = Some s'' ->
        timer s'' = Some (t + w * 1000 + w * 1000, w * 1000)
        /\ refreshIntervalSec s'' = w).
Proof.
  intros Hp Hr Hne H.
  apply step_stats_inv in H as (l & ->).
  assert (Href : refreshIntervalSec
                   (stats_settled (Ok (Some r)) (set_inflight l (set_now t s))) = w)
    by (cbn; rewrite Hr; reflexivity).
  assert (Htm : timer (interval_effect s
                  (stats_settled (Ok (Some r)) (set_inflight l (set_now t s))))
                = Some (t + w * 1000, w * 1000)).
  { rewrite interval_effect_changed.
    - rewrite Href. reflexivity.
    - rewrite Href. exact Hne.
    - exact Hp. }
  split; [|split; [|split]].
  - rewrite (proj1 (proj2 (proj2 (proj2 (proj2 (interval_effect_fields _ _)))))).
    exact Href.
  - exact Htm.
  - intros _ ->. rewrite Htm. reflexivity.
  - intros s'' Hf. apply step_fire_inv in Hf as (f & p & Ht & ->).
    rewrite Htm in Ht. injection Ht as <- <-.
    assert (Hr1 : refreshIntervalSec (interval_effect s
                    (stats_settled (Ok (Some r)) (set_inflight l (set_now t s)))) = w).
    { rewrite (proj1 (proj2 (proj2 (proj2 (proj2 (interval_effect_fields _ _)))))).
      exact Href. }
    rewrite interval_effect_same by reflexivity.
    split; [reflexivity | exact Hr1].
Qed.

Definition stats_with_interval (v : nat) : StatsResult := mkStatsResult [] None (Some v).

Lemma C6_server_interval_reschedules_witness :
  match step (mount 0) (StatsDone 5 (Ok (Some (stats_with_interval 30)))) with
  | Some s' => timer s' = Some (5 + 30000, 30000)
  | None => False
  end.
Proof.
  destruct (step (mount 0) (StatsDone 5 (Ok (Some (stats_with_interval 30)))))
    as [s'|] eqn:E.
  - exact (proj1 (proj2 (proj2 (C6_server_interval_reschedules (mount 0) s' 5 30
             (stats_with_interval 30) eq_refl eq_refl
             ltac:(vm_compute; discriminate) E))) eq_refl eq_refl).
  - discriminate E.
Defined.

(** C10: a successful statistics response without [refresh_interval_sec],
    or without [result], resets the interval to 10 seconds, whatever it was;
    without [result] the stats snapshot becomes the empty list. *)
Theorem C10_missing_interval_resets (s s' : LS) (t : nat) (result : option StatsResult) :
  step s (StatsDone t (Ok result)) = Some s' ->
  match result with None => True | Some r => res_refresh_interval_sec r = None end ->
  refreshIntervalSec s' = 10
  /\ (result = None -> stats s' = StatsEmptyList /\ scores (stats s') = []).
Proof.
  intros H Hr. apply step_stats_inv in H as (l & ->).
  rewrite (proj1 (proj2 (proj2 (proj2 (proj2 (interval_effect_fields _ _)))))).
  rewrite (proj1 (interval_effect_fields _ _)).
  split.
  - destruct result as [r|]; cbn; [rewrite Hr|]; reflexivity.
  - intros ->. split; reflexivity.
Qed.

(** A state whose interval came from the server (30 s) with a tick in flight. *)
Definition ls_after_server_interval : LS :=
  mkLS (StatsMap (stats_with_interval 30)) empty_server_state true false 30
       [FStats; FInfo] 30000 (Some (60000, 30000)).

Lemma C10_missing_interval_resets_witness :
  match step ls_after_server_interval (StatsDone 30010 (Ok None)) with
  | Some s' => refreshIntervalSec s' = 10 /\ stats s' = StatsEmptyList
  | None => False
  end.
Proof.
  destruct (step ls_after_server_interval (StatsDone 30010 (Ok None)))
    as [s'|] eqn:E.
  - destruct (C10_missing_interval_resets ls_after_server_interval s' 30010 None
                E I) as [H1 H2].
    split; [exact H1 | exact (proj1 (H2 eq_refl))].
  - discriminate E.
Defined.

End LiveScoreProofs.

(** * Properties of [DataTable] *)

Module GameTableProofs.
Import GameTable.

(** ** Export *)

Definition row_a : Player := mkPlayer "A" "1" 1.
Definition row_b : Player := mkPlayer "B" "2" 5.

(** C1 (counterexample): with the initial table state (no filter, sorted
    by kills descending) the table shows [[B; A]], but the export button
    hands [[A; B]], the raw input, to the download. *)
Lemma C1_export_is_not_displayed_rows :
  displayed_rows_unfiltered (ts_sort_kills_desc initial_table_state) [row_a; row_b]
  = [row_b; row_a]
  /\ fst (export_click initial_table_state [row_a; row_b] "t1") = [row_a; row_b]
  /\ [row_a; row_b] <> [row_b; row_a].
Proof.
  split; [reflexivity | split; [reflexivity | discriminate]].
Qed.

(** C1: whatever the filter and sort state, the export button downloads the
    [data] prop itself, in input order, under the name
    ["game-table-" ++ tableId]. *)
Theorem C1_export_downloads_input_data (st st' : TableState) (data : list Player)
    (tableId : string) :
  export_click st data tableId = (data, "game-table-" ++ tableId)
  /\ export_click st data tableId = export_click st' data tableId.
Proof. split; reflexivity. Qed.

(** ** Player filter options *)

Lemma data_has_name_spec (data : list Player) (name : string) :
  data_has_name data name = true <-> In name (map player data).
Proof.
  unfold data_has_name. rewrite existsb_exists. split.
  - intros (p & Hin & Heq). apply String.eqb_eq in Heq. subst name.
    apply in_map. exact Hin.
  - intros Hin. apply in_map_iff in Hin as (p & <- & Hin).
    exists p. split; [exact Hin | apply String.eqb_refl].
Qed.

(** The option values are the data's names, then the selected names the
    data lacks. *)
Lemma option_values (data : list Player) (playerFilter : list string) :
  map value (playerFilterOptions data playerFilter)
  = (map player data ++ filter (fun n => negb (data_has_name data n)) playerFilter)%list.
Proof.
  unfold playerFilterOptions. rewrite map_app, !map_map. cbn [value].
  rewrite map_id. reflexivity.
Qed.

(** C4: the option values are exactly the names of the current data plus
    the selected names absent from it; every option's label is its value;
    and every selected name is both an option and selected, whatever data
    is passed in. *)
Theorem C4_filter_options_union (data : list Player) (playerFilter : list string) :
  (forall x, In x (map value (playerFilterOptions data playerFilter))
             <-> In x (map player data)
                 \/ (In x playerFilter /\ ~ In x (map player data)))
  /\ (forall o, In o (playerFilterOptions data playerFilter) -> label o = value o)
  /\ (forall name, In name playerFilter ->
        In (mkOption name name) (fst (player_select data playerFilter))
        /\ In name (snd (player_select data playerFilter))).
Proof.
  split; [|split].
  - intros x. rewrite option_values, in_app_iff, filter_In.
    destruct (data_has_name data x) eqn:E; cbn.
    + apply data_has_name_spec in E. tauto.
    + assert (Hn : ~ In x (map player data)).
      { intros Hin. apply data_has_name_spec in Hin. congruence. }
      intuition discriminate.
  - unfold playerFilterOptions.
    intros o Hin. apply in_app_iff in Hin as [Hin|Hin];
      apply in_map_iff in Hin as (y & <- & _); reflexivity.
  - unfold player_select, playerFilterOptions; cbn [fst snd].
    intros name Hin. split; [|exact Hin].
    apply in_app_iff.
    destruct (data_has_name data name) eqn:E.
    + left. apply data_has_name_spec in E.
      apply in_map_iff in E as (p & Hp & Hin').
      apply in_map_iff. exists p. rewrite Hp. split; [reflexivity | exact Hin'].
    + right. apply in_map_iff. exists name. split; [reflexivity|].
      apply filter_In. rewrite E. split; [exact Hin | reflexivity].
Qed.

(** ** Focus / highlight effect *)

Lemma getElementById_update (d : list Elem) (id : string) (f : Elem -> Elem) :
  (forall e, el_id (f e) = el_id e) ->
  getElementById (update_elem d id f) id = option_map f (getElementById d id).
Proof.
  intros Hf. induction d as [|e d IH]; [reflexivity|].
  cbn. destruct (String.eqb (el_id e) id) eqn:E; cbn.
  - rewrite Hf, E. reflexivity.
  - rewrite E. exact IH.
Qed.

Lemma getElementById_found (d : list Elem) (id : string) (e : Elem) :
  getElementById d id = Some e -> el_id e = id.
Proof.
  unfold getElementById. intros H. apply find_some in H as [_ H].
  apply String.eqb_eq. exact H.
Qed.





Lemma getElementById_update_other (d : list Elem) (id' id : string) (f : Elem -> Elem) :
  id' <> id -> (forall e, el_id (f e) = el_id e) ->
  getElementById (update_elem d id' f) id = getElementById d id.
Proof.
  intros Hne Hf. unfold getElementById.
  induction d as [|e d IH]; [reflexivity|].
  cbn [update_elem]. destruct (String.eqb (el_id e) id') eqn:E'; cbn [find].
  - apply String.eqb_eq in E'. rewrite Hf, E'.
    replace (String.eqb id' id) with false by (symmetry; apply String.eqb_neq; exact Hne).
    reflexivity.
  - destruct (String.eqb (el_id e) id); [reflexivity | exact IH].
Qed.

Lemma advance_dom (t : nat) (st : FocusState) :
  dom (advance t st) = snd (fire_due t (timeouts st) (dom st)).
Proof. unfold advance. destruct (fire_due t (timeouts st) (dom st)); reflexivity. Qed.

(** Timeouts that are not due, or that belong to other elements, leave the
    element with id [id] as it is. *)
Lemma fire_due_keeps (t : nat) (ts : list (nat * string)) (d : list Elem) (id : string) :
  (forall a, In (a, id) ts -> t < a) ->
  getElementById (snd (fire_due t ts d)) id = getElementById d id.
Proof.
  revert d. induction ts as [|[a i] ts IH]; intros d H; [reflexivity|].
  cbn [fire_due]. destruct (Nat.leb a t) eqn:Ea.
  - apply Nat.leb_le in Ea.
    rewrite IH by (intros a' Ha'; apply H; right; exact Ha').
    apply getElementById_update_other; [|reflexivity].
    intros ->. specialize (H a (or_introl eq_refl)). lia.
  - destruct (fire_due t ts d) as [r d'] eqn:E. cbn [snd].
    replace d' with (snd (fire_due t ts d)) by (rewrite E; reflexivity).
    apply IH. intros a' Ha'. apply H. right. exact Ha'.
Qed.

Lemma fire_due_snoc (t a : nat) (i : string) (ts : list (nat * string)) (d : list Elem) :
  a <= t ->
  snd (fire_due t (ts ++ [(a, i)]) d)
  = update_elem (snd (fire_due t ts d)) i (remove_classes highlight_style).
Proof.
  intros Ha. revert d. induction ts as [|[b j] ts IH]; intros d; cbn [app fire_due].
  - replace (Nat.leb a t) with true by (symmetry; apply Nat.leb_le; exact Ha).
    reflexivity.
  - destruct (Nat.leb b t).
    + apply IH.
    + specialize (IH d).
      destruct (fire_due t (ts ++ [(a, i)]) d) as [r1 d1].
      destruct (fire_due t ts d) as [r2 d2]. exact IH.
Qed.


Definition sample_dom : list Elem :=
  [mkElem "row-1" ["text-sm"]; mkElem "row-2" ["text-sm"]].

Definition sample_focus_state : FocusState := mkFocusState None sample_dom [] [] 0.




(** C9: every focus request from the unfocused state ends with the focus
    reset to [null], whichever value is requested; when no row
    ["row-" ++ pid] exists, nothing else changes (no scroll, no class, no
    timeout). *)
Theorem C9_focus_reset_without_row (st : FocusState) (pid : string) :
  focusedPlayerId st = None ->
  (forall v, focusedPlayerId (set_focused v st) = None)
  /\ (getElementById (dom st) (row_id pid) = None ->
      set_focused (Some pid) st = st).
Proof.
  intros Hf. split.
  - intros [v|].
    + unfold set_focused. rewrite Hf. cbn [opt_str_eqb]. unfold focus_effect.
      cbn [focusedPlayerId dom].
      destruct (getElementById (dom st) (row_id v)); reflexivity.
    + unfold set_focused. rewrite Hf. cbn [opt_str_eqb]. exact Hf.
  - intros Hn. unfold set_focused. rewrite Hf. cbn [opt_str_eqb].
    unfold focus_effect. cbn [focusedPlayerId dom]. rewrite Hn.
    destruct st as [f d ts sc ck]. cbn in Hf |- *. rewrite Hf. reflexivity.
Qed.

Lemma C9_focus_reset_without_row_witness :
  set_focused (Some "7") sample_focus_state = sample_focus_state
  /\ focusedPlayerId (set_focused (Some "7") sample_focus_state) = None.
Proof.
  destruct (C9_focus_reset_without_row sample_focus_state "7" eq_refl) as [H1 H2].
  split; [exact (H2 eq_refl) | exact (H1 (Some "7"))].
Defined.

End GameTableProofs.

(** * Properties of [SubList] *)

Module SubListProofs.
Import SubList.

Section SortBy.
Context {A : Type} (before : A -> A -> bool) (R : A -> A -> Prop).
(** [before y x = false] puts [x] first, so [R x y] must hold; when
    [before y x] holds [y] goes first and [R y x] must hold. *)
Hypothesis R_not_before : forall x y, before y x = false -> R x y.
Hypothesis R_before : forall x y, before y x = true -> R y x.

Lemma insert_by_hd (x y : A) (l : list A) :
  R y x -> HdRel R y l -> HdRel R y (insert_by before x l).
Proof.
  intros Hyx Hl. destruct l as [|z l]; cbn.
  - constructor. exact Hyx.
  - destruct (before z x); constructor; [inversion Hl; assumption | exact Hyx].
Qed.

Lemma insert_by_sorted (x : A) (l : list A) :
  Sorted R l -> Sorted R (insert_by before x l).
Proof.
  induction 1 as [|z l Hl IH Hhd]; cbn.
  - constructor; constructor.
  - destruct (before z x) eqn:E.
    + constructor; [exact IH|].
      apply insert_by_hd; [apply R_before; exact E | exact Hhd].
    + constructor; [constructor; [exact Hl | exact Hhd]|].
      constructor. apply R_not_before. exact E.
Qed.

Lemma sort_by_sorted (l : list A) : Sorted R (sort_by before l).
Proof.
  induction l as [|x l IH]; cbn; [constructor|].
  apply insert_by_sorted. exact IH.
Qed.

End SortBy.

Lemma insert_by_perm {A} (before : A -> A -> bool) (x : A) (l : list A) :
  Permutation (x :: l) (insert_by before x l).
Proof.
  induction l as [|y l IH]; cbn; [reflexivity|].
  destruct (before y x); [|reflexivity].
  transitivity (y :: x :: l); [apply perm_swap|].
  apply perm_skip. exact IH.
Qed.

Lemma sort_by_perm {A} (before : A -> A -> bool) (l : list A) :
  Permutation l (sort_by before l).
Proof.
  induction l as [|x l IH]; cbn; [reflexivity|].
  transitivity (x :: sort_by before l); [apply perm_skip; exact IH|].
  apply insert_by_perm.
Qed.

Lemma Sorted_snoc {A} (R : A -> A -> Prop) (l : list A) (x : A) :
  Sorted R l -> (forall y, last l x = y -> l <> [] -> R y x) ->
  Sorted R (l ++ [x]).
Proof.
  induction 1 as [|z l Hl IH Hhd]; intros Hlast; cbn.
  - constructor; constructor.
  - constructor.
    + apply IH. intros y Hy Hne. apply (Hlast y); [|discriminate].
      destruct l; [contradiction|]. exact Hy.
    + destruct l as [|w l]; cbn.
      * constructor. apply (Hlast z); [reflexivity | discriminate].
      * constructor. inversion Hhd. assumption.
Qed.

Lemma Sorted_rev {A} (R : A -> A -> Prop) (l : list A) :
  Sorted R l -> Sorted (fun a b => R b a) (rev l).
Proof.
  induction 1 as [|z l Hl IH Hhd]; cbn; [constructor|].
  apply Sorted_snoc; [exact IH|].
  intros y Hy Hne. subst y. destruct l as [|w l]; [contradiction|].
  cbn. rewrite last_last.
  inversion Hhd. assumption.
Qed.

(** Keys in ascending order under the default comparator. *)
Definition key_le (a b : string * nat) : Prop := String.leb (fst a) (fst b) = true.
Definition value_le (a b : string * nat) : Prop := snd a <= snd b.

Lemma cmp_string_not_gt (a b : string) : is_gt (cmp_string a b) = false ->
  String.leb a b = true.
Proof.
  unfold is_gt, cmp_string, String.leb. destruct (String.compare a b); easy.
Qed.

Lemma cmp_string_gt (a b : string) : is_gt (cmp_string a b) = true ->
  String.leb b a = true.
Proof.
  unfold is_gt, cmp_string, String.leb. rewrite (String.compare_antisym b a).
  destruct (String.compare a b); easy.
Qed.

Lemma cmp_number_not_gt (a b : nat) : is_gt (cmp_number a b) = false -> a <= b.
Proof.
  unfold is_gt, cmp_number. destruct (Nat.compare a b) eqn:E; try discriminate.
  - apply Nat.compare_eq in E. lia.
  - apply Nat.compare_lt_iff in E. lia.
Qed.

Lemma cmp_number_gt (a b : nat) : is_gt (cmp_number a b) = true -> b <= a.
Proof.
  unfold is_gt, cmp_number. destruct (Nat.compare a b) eqn:E; try discriminate.
  apply Nat.compare_gt_iff in E. lia.
Qed.

(** C8: with [sortByKey] the entries are rendered in ascending key order;
    otherwise they are [data.sort()] (ascending values) reversed, hence in
    descending value order; either way every entry appears exactly once. *)
Theorem C8_sublist_order (data : ScoreMap) :
  (Sorted key_le (rendered_entries true data)
   /\ Permutation data (rendered_entries true data))
  /\ (rendered_entries false data = rev (sort_values data)
      /\ Sorted value_le (sort_values data)
      /\ Sorted (fun a b => snd b <= snd a) (rendered_entries false data)
      /\ Permutation data (rendered_entries false data)).
Proof.
  assert (Hval : Sorted value_le (sort_values data)).
  { apply sort_by_sorted.
    - intros x y H. apply cmp_number_not_gt. exact H.
    - intros x y H. apply cmp_number_gt. exact H. }
  split; [split|split; [|split; [|split]]].
  - apply sort_by_sorted.
    + intros x y H. apply cmp_string_not_gt. exact H.
    + intros x y H. apply cmp_string_gt. exact H.
  - apply sort_by_perm.
  - reflexivity.
  - exact Hval.
  - apply (Sorted_rev value_le). exact Hval.
  - cbn. rewrite <- Permutation_rev. apply sort_by_perm.
Qed.

End SubListProofs.

(** * Properties of the time strings and header of [LiveScore] *)

Module LiveScoreViewProofs.
Import LiveScoreView.
Local Open Scope Z_scope.

(** ** Strings *)

Lemma str_app_assoc (a b c : string) : ((a ++ b) ++ c = a ++ (b ++ c))%string.
Proof. induction a as [|x a IH]; cbn; [reflexivity | rewrite IH; reflexivity]. Qed.

Lemma str_length_app (a b : string) :
  String.length (a ++ b) = (String.length a + String.length b)%nat.
Proof. induction a as [|x a IH]; cbn; [reflexivity | rewrite IH; reflexivity]. Qed.

Lemma substring_skip (a b : string) (k m : nat) :
  substring (String.length a + k) m (a ++ b) = substring k m b.
Proof. induction a as [|x a IH]; cbn; [reflexivity | exact IH]. Qed.

Lemma substring_prefix (a b : string) :
  substring 0 (String.length a) (a ++ b) = a.
Proof.
  induction a as [|x a IH]; cbn; [destruct b; reflexivity | rewrite IH; reflexivity].
Qed.

(** ** Decimal digits *)

Lemma digits_aux_len (j fuel n : nat) (acc : string) :
  (n < 10 ^ S j)%nat ->
  (String.length (digits_aux fuel n acc) <= String.length acc + S j)%nat.
Proof.
  revert fuel n acc. induction j as [|j IH]; intros fuel n acc Hn;
    destruct fuel as [|f]; cbn [digits_aux]; try lia.
  - destruct (Nat.ltb n 10) eqn:E; [cbn; lia|].
    apply Nat.ltb_ge in E. cbn in Hn. lia.
  - destruct (Nat.ltb n 10); [cbn; lia|].
    etransitivity; [apply IH|cbn; lia].
    apply Nat.Div0.div_lt_upper_bound. cbn in Hn |- *. lia.
Qed.

Lemma zeros_length (k : nat) : String.length (zeros k) = k.
Proof. induction k as [|k IH]; cbn; [reflexivity | rewrite IH; reflexivity]. Qed.

Lemma zpad_length (k : nat) (n : Z) :
  0 <= n < 10 ^ Z.of_nat (S k) -> String.length (zpad (S k) n) = S k.
Proof.
  intros Hn. unfold zpad. rewrite str_length_app, zeros_length.
  assert (Hl : (String.length (string_of_nat (Z.to_nat n)) <= 0 + S k)%nat).
  { unfold string_of_nat. apply (digits_aux_len k).
    apply Nat2Z.inj_lt. rewrite Nat2Z.inj_pow, Z2Nat.id by lia. lia. }
  cbn [String.length] in Hl. lia.
Qed.

Lemma zpad2_length (n : Z) : 0 <= n < 100 -> String.length (zpad 2 n) = 2%nat.
Proof. intros Hn. apply zpad_length. cbn. lia. Qed.

Lemma year_str_length (y : Z) : 0 <= y <= 9999 -> String.length (year_str y) = 4%nat.
Proof.
  intros Hy. unfold year_str.
  replace ((0 <=? y) && (y <=? 9999)) with true
    by (symmetry; apply andb_true_iff; split; apply Z.leb_le; lia).
  apply zpad_length. cbn. lia.
Qed.

(** ** Calendar fields *)

Lemma div_bounds (x k : Z) : 0 < k -> k * (x / k) <= x < k * (x / k) + k.
Proof.
  intros Hk. pose proof (Z.div_mod x k) as H. pose proof (Z.mod_pos_bound x k Hk).
  lia.
Qed.

(** The calendar fields of a day of a 400-year era, counted from 1 March
    of year 0 of the era: (year in era, bumped into January/February of the
    next year; month; day). *)
Definition doe_parts (doe : Z) : Z * Z * Z :=
  let yoe := (doe - doe / 1460 + doe / 36524 - doe / 146096) / 365 in
  let doy := doe - (365 * yoe + yoe / 4 - yoe / 100) in
  let mp := (5 * doy + 2) / 153 in
  let d := doy - (153 * mp + 2) / 5 + 1 in
  let m := if mp <? 10 then mp + 3 else mp - 9 in
  (if m <=? 2 then yoe + 1 else yoe, m, d).

Lemma civil_from_days_parts (z : Z) :
  civil_from_days z
  = let '(yb, m, d) := doe_parts ((z + 719468) mod 146097) in
    (yb + (z + 719468) / 146097 * 400, m, d).
Proof.
  unfold civil_from_days, doe_parts.
  rewrite (Z.mod_eq (z + 719468) 146097) by lia.
  replace (z + 719468 - 146097 * ((z + 719468) / 146097))
    with (z + 719468 - (z + 719468) / 146097 * 146097) by ring.
  cbv beta iota zeta.
  match goal with |- context [if (?m <=? 2) then _ else _] => destruct (m <=? 2) end;
    f_equal; try f_equal; ring.
Qed.

Lemma doe_parts_bounds (doe : Z) :
  0 <= doe < 146097 ->
  let '(yb, m, d) := doe_parts doe in
  0 <= yb <= 400 /\ 1 <= m <= 12 /\ 1 <= d <= 31
  /\ (146037 <= doe -> yb = 400) /\ (doe < 146037 -> yb <= 399).
Proof.
  intros Hd. unfold doe_parts. cbv zeta.
  pose proof (div_bounds doe 1460 ltac:(lia)).
  pose proof (div_bounds doe 36524 ltac:(lia)).
  pose proof (div_bounds doe 146096 ltac:(lia)).
  set (a := doe / 1460) in *. set (b := doe / 36524) in *. set (c := doe / 146096) in *.
  pose proof (div_bounds (doe - a + b - c) 365 ltac:(lia)).
  set (yoe := (doe - a + b - c) / 365) in *.
  pose proof (div_bounds yoe 4 ltac:(lia)). pose proof (div_bounds yoe 100 ltac:(lia)).
  set (e := yoe / 4) in *. set (f := yoe / 100) in *.
  assert (Hyoe : 0 <= yoe <= 399) by lia.
  assert (Hdoy : 0 <= doe - (365 * yoe + e - f) <= 365) by lia.
  set (doy := doe - (365 * yoe + e - f)) in *.
  pose proof (div_bounds (5 * doy + 2) 153 ltac:(lia)).
  set (mp := (5 * doy + 2) / 153) in *.
  pose proof (div_bounds (153 * mp + 2) 5 ltac:(lia)).
  set (g := (153 * mp + 2) / 5) in *.
  assert (Hmp : 0 <= mp <= 11) by lia.
  destruct (mp <? 10) eqn:Emp; [apply Z.ltb_lt in Emp | apply Z.ltb_ge in Emp].
  - replace (mp + 3 <=? 2) with false by (symmetry; apply Z.leb_gt; lia).
    repeat split; try lia.
  - replace (mp - 9 <=? 2) with true by (symmetry; apply Z.leb_le; lia).
    repeat split; try lia.
Qed.

(** ** The time part of [toISOString] *)

Lemma substring_prefix_le (a b : string) (k : nat) :
  (k <= String.length a)%nat -> substring 0 k (a ++ b) = substring 0 k a.
Proof.
  revert k. induction a as [|x a IH]; intros k Hk; cbn in Hk |- *.
  - assert (k = 0%nat) by lia. subst k. destruct b; reflexivity.
  - destruct k as [|k]; [reflexivity|]. rewrite IH by lia. reflexivity.
Qed.

Lemma substring_after_date (y m d r : string) (k : nat) :
  String.length y = 4%nat -> String.length m = 2%nat -> String.length d = 2%nat ->
  substring 11 k (y ++ "-" ++ m ++ "-" ++ d ++ "T" ++ r) = substring 0 k r.
Proof.
  intros Hy Hm Hd.
  replace 11%nat with (String.length y + 7)%nat by lia. rewrite substring_skip.
  cbn [append substring].
  replace 6%nat with (String.length m + 4)%nat by lia. rewrite substring_skip.
  cbn [append substring].
  replace 3%nat with (String.length d + 1)%nat by lia. rewrite substring_skip.
  reflexivity.
Qed.

Lemma time_of_day_bounds (t : Z) :
  0 <= t mod msPerDay / 3600000 < 24
  /\ 0 <= t mod msPerDay / 60000 mod 60 < 60
  /\ 0 <= t mod msPerDay / 1000 mod 60 < 60.
Proof.
  unfold msPerDay.
  pose proof (Z.mod_pos_bound t 86400000 ltac:(lia)).
  pose proof (div_bounds (t mod 86400000) 3600000 ltac:(lia)).
  pose proof (Z.mod_pos_bound (t mod 86400000 / 60000) 60 ltac:(lia)).
  pose proof (Z.mod_pos_bound (t mod 86400000 / 1000) 60 ltac:(lia)).
  lia.
Qed.

Lemma clock_hms_length (t : Z) : String.length (clock_hms t) = 8%nat.
Proof.
  destruct (time_of_day_bounds t) as (H1 & H2 & H3).
  unfold clock_hms. cbv zeta.
  rewrite !str_length_app, !zpad2_length by lia. reflexivity.
Qed.

Lemma substring_full (a : string) : substring 0 (String.length a) a = a.
Proof. induction a as [|x a IH]; cbn; [reflexivity | rewrite IH; reflexivity]. Qed.

Lemma clock_hms_hm (t : Z) :
  clock_hms t = (clock_hm t ++ ":" ++ zpad 2 (t mod msPerDay / 1000 mod 60))%string.
Proof. unfold clock_hms, clock_hm. cbv zeta. rewrite !str_app_assoc. reflexivity. Qed.

Lemma clock_hm_length (t : Z) : String.length (clock_hm t) = 5%nat.
Proof.
  destruct (time_of_day_bounds t) as (H1 & H2 & H3).
  unfold clock_hm. cbv zeta.
  rewrite !str_length_app, !zpad2_length by lia. reflexivity.
Qed.

Lemma clock_hm_prefix (t : Z) : substring 0 5 (clock_hms t) = clock_hm t.
Proof.
  rewrite clock_hms_hm, substring_prefix_le by (rewrite clock_hm_length; lia).
  rewrite <- (clock_hm_length t) at 1. apply substring_full.
Qed.

(** Within the four-digit years the ISO string is "YYYY-MM-DDT" followed by
    the clock reading of the time of day. *)
Lemma toISOString_time (t : Z) (k : nat) :
  -62167219200000 <= t < 253402300800000 -> (k <= 8)%nat ->
  option_map (substring 11 k) (toISOString t) = Some (substring 0 k (clock_hms t)).
Proof.
  intros Ht Hk. unfold toISOString.
  replace (8640000000000000 <? Z.abs t) with false
    by (symmetry; apply Z.ltb_ge; lia).
  rewrite civil_from_days_parts.
  set (day := t / msPerDay).
  assert (Hday : -719528 <= day < 2932897).
  { pose proof (div_bounds t msPerDay ltac:(unfold msPerDay; lia)).
    subst day. unfold msPerDay in *. lia. }
  pose proof (div_bounds (day + 719468) 146097 ltac:(lia)) as Hera.
  pose proof (Z.mod_eq (day + 719468) 146097 ltac:(lia)) as Hmod.
  set (era := (day + 719468) / 146097) in *.
  set (doe := (day + 719468) mod 146097) in *.
  assert (Hdoe : 0 <= doe < 146097) by lia.
  pose proof (doe_parts_bounds doe Hdoe) as Hb.
  destruct (doe_parts doe) as [[yb m] d].
  destruct Hb as (Hyb & Hm & Hd & Hfirst & Hlast).
  assert (Hy : 0 <= yb + era * 400 <= 9999).
  { assert (era = -1 \/ (0 <= era <= 23) \/ era = 24) as [He|[He|He]] by lia.
    - rewrite He. specialize (Hfirst ltac:(lia)). lia.
    - lia.
    - rewrite He. specialize (Hlast ltac:(lia)). lia. }
  cbn [option_map]. f_equal.
  rewrite substring_after_date.
  - set (tod := t mod msPerDay).
    replace (zpad 2 (tod / 3600000) ++ ":" ++ zpad 2 (tod / 60000 mod 60)
             ++ ":" ++ zpad 2 (tod / 1000 mod 60) ++ "." ++ zpad 3 (tod mod 1000)
             ++ "Z")%string
      with (clock_hms t ++ "." ++ zpad 3 (tod mod 1000) ++ "Z")%string
      by (unfold clock_hms; cbv zeta; rewrite !str_app_assoc; reflexivity).
    apply substring_prefix_le. rewrite clock_hms_length. exact Hk.
  - apply year_str_length. exact Hy.
  - apply zpad2_length. lia.
  - apply zpad2_length. lia.
Qed.

Lemma zpad_length_ge (k : nat) (n : Z) : (k <= String.length (zpad k n))%nat.
Proof. unfold zpad. cbv zeta. rewrite str_length_app, zeros_length. lia. Qed.

Lemma year_str_length_ge (y : Z) : (4 <= String.length (year_str y))%nat.
Proof.
  unfold year_str. destruct (_ && _).
  - apply zpad_length_ge.
  - rewrite str_length_app. pose proof (zpad_length_ge 6 (Z.abs y)).
    destruct (y <? 0); cbn [String.length]; lia.
Qed.

Lemma substring_length (x : string) (n m : nat) :
  (n + m <= String.length x)%nat -> String.length (substring n m x) = m.
Proof.
  revert n m. induction x as [|c x IH]; intros n m H; cbn in H.
  - assert (n = 0%nat /\ m = 0%nat) as [-> ->] by lia. reflexivity.
  - destruct n as [|n]; cbn.
    + destruct m as [|m]; cbn; [reflexivity|]. rewrite IH by lia. reflexivity.
    + apply IH. lia.
Qed.

Lemma toISOString_none (t : Z) :
  toISOString t = None <-> 8640000000000000 < Z.abs t.
Proof.
  unfold toISOString.
  destruct (8640000000000000 <? Z.abs t) eqn:E.
  - apply Z.ltb_lt in E. split; [intros _; exact E | reflexivity].
  - apply Z.ltb_ge in E. destruct (civil_from_days (t / msPerDay)) as [[y m] d].
    split; [discriminate | lia].
Qed.

Lemma toISOString_length (t : Z) (iso : string) :
  toISOString t = Some iso -> (19 <= String.length iso)%nat.
Proof.
  unfold toISOString. destruct (8640000000000000 <? Z.abs t); [discriminate|].
  destruct (civil_from_days (t / msPerDay)) as [[y m] d].
  intros H. injection H as <-.
  rewrite !str_length_app.
  pose proof (year_str_length_ge y).
  pose proof (zpad_length_ge 2 m). pose proof (zpad_length_ge 2 d).
  pose proof (zpad_length_ge 2 (t mod msPerDay / 3600000)).
  pose proof (zpad_length_ge 2 (t mod msPerDay / 60000 mod 60)).
  pose proof (zpad_length_ge 2 (t mod msPerDay / 1000 mod 60)).
  repeat progress (cbn [String.length append]; rewrite ?str_length_app). lia.
Qed.

Lemma hms_decompose (tod : Z) :
  0 <= tod ->
  3600 * (tod / 3600000) + 60 * (tod / 60000 mod 60) + tod / 1000 mod 60 = tod / 1000.
Proof.
  intros H.
  replace 3600000 with (1000 * 60 * 60) by reflexivity.
  replace 60000 with (1000 * 60) by reflexivity.
  rewrite <- !Z.div_div by lia.
  set (q := tod / 1000).
  pose proof (Z.div_mod q 60 ltac:(lia)).
  pose proof (Z.div_mod (q / 60) 60 ltac:(lia)).
  lia.
Qed.

(** ** Properties of the header's time strings *)

(** [durationToHour] (LiveScore.js): for any time value in the four-digit
    years, the text is "HH:MM" with [HH < 24] and [MM < 60], reading the
    seconds of [val] modulo one day: whole minutes of [val mod 86400]. *)
Theorem durationToHour_clock (val : Z) :
  -62167219200 <= val < 253402300800 ->
  exists h mi, durationToHour val = Some (zpad 2 h ++ ":" ++ zpad 2 mi)%string
    /\ 0 <= h < 24 /\ 0 <= mi < 60 /\ 60 * h + mi = val mod 86400 / 60.
Proof.
  intros Hv. unfold durationToHour.
  rewrite (toISOString_time (val * 1000) 5) by lia.
  rewrite clock_hm_prefix.
  destruct (time_of_day_bounds (val * 1000)) as (H1 & H2 & _).
  exists ((val * 1000) mod msPerDay / 3600000), ((val * 1000) mod msPerDay / 60000 mod 60).
  split; [reflexivity|]. split; [exact H1|]. split; [exact H2|].
  unfold msPerDay.
  replace 86400000 with (86400 * 1000) by reflexivity.
  rewrite Z.mul_mod_distr_r by lia.
  pose proof (Z.mod_pos_bound val 86400 ltac:(lia)).
  pose proof (hms_decompose (val mod 86400 * 1000) ltac:(lia)) as Hd.
  rewrite Z.div_mul in Hd by lia.
  pose proof (Z.div_mod (val mod 86400) 60 ltac:(lia)).
  pose proof (Z.mod_pos_bound (val mod 86400 * 1000 / 1000) 60 ltac:(lia)).
  rewrite Z.div_mul in * by lia.
  lia.
Qed.

Lemma durationToHour_clock_witness :
  -62167219200 <= 3725 < 253402300800 /\
  exists h mi, durationToHour 3725 = Some (zpad 2 h ++ ":" ++ zpad 2 mi)%string
    /\ 0 <= h < 24 /\ 0 <= mi < 60 /\ 60 * h + mi = 3725 mod 86400 / 60.
Proof. split; [lia | apply durationToHour_clock; lia]. Defined.

(** [started] (LiveScore.js): with a truthy start [s] whose date and whose
    elapsed time [now - s * 1000] are valid and in the four-digit years, the
    header shows "HH:MM:SS" with [HH < 24], [MM, SS < 60] reading the whole
    seconds of the elapsed time modulo one day. *)
Theorem started_elapsed (now s : Z) :
  s <> 0 -> Z.abs (s * 1000) <= 8640000000000000 ->
  -62167219200000 <= now - s * 1000 < 253402300800000 ->
  exists h mi sc,
    started_str now (Some s) = Some (zpad 2 h ++ ":" ++ zpad 2 mi ++ ":" ++ zpad 2 sc)%string
    /\ 0 <= h < 24 /\ 0 <= mi < 60 /\ 0 <= sc < 60
    /\ 3600 * h + 60 * mi + sc = (now - s * 1000) mod 86400000 / 1000.
Proof.
  intros Hs Habs He. unfold started_str.
  replace (s =? 0) with false by (symmetry; apply Z.eqb_neq; exact Hs).
  replace (8640000000000000 <? Z.abs (s * 1000)) with false
    by (symmetry; apply Z.ltb_ge; exact Habs).
  rewrite (toISOString_time (now - s * 1000) 8) by lia.
  rewrite <- (clock_hms_length (now - s * 1000)), substring_full.
  destruct (time_of_day_bounds (now - s * 1000)) as (H1 & H2 & H3).
  do 3 eexists. split; [unfold clock_hms; reflexivity|].
  split; [exact H1|]. split; [exact H2|]. split; [exact H3|].
  apply hms_decompose. apply Z.mod_pos_bound. unfold msPerDay. lia.
Qed.

Lemma started_elapsed_witness :
  (5 <> 0 /\ Z.abs (5 * 1000) <= 8640000000000000 /\
   -62167219200000 <= 10000000 - 5 * 1000 < 253402300800000) /\
  exists h mi sc,
    started_str 10000000 (Some 5) = Some (zpad 2 h ++ ":" ++ zpad 2 mi ++ ":" ++ zpad 2 sc)%string
    /\ 0 <= h < 24 /\ 0 <= mi < 60 /\ 0 <= sc < 60
    /\ 3600 * h + 60 * mi + sc = (10000000 - 5 * 1000) mod 86400000 / 1000.
Proof. split; [lia | apply started_elapsed; lia]. Defined.

(** [started] shows "N/A" for an absent or zero start and fails (the
    [toISOString] of an invalid date throws) exactly when the start is
    truthy and either its date or the elapsed time is out of range. *)
Theorem started_na_and_error (now : Z) (start : option Z) :
  (started_str now start = Some "N/A" <-> (start = None \/ start = Some 0))
  /\ (started_str now start = None <->
      exists s, start = Some s /\ s <> 0
        /\ (8640000000000000 < Z.abs (s * 1000)
            \/ 8640000000000000 < Z.abs (now - s * 1000))).
Proof.
  destruct start as [s|]; cbn [started_str].
  - destruct (s =? 0) eqn:E0.
    + apply Z.eqb_eq in E0. subst s. split.
      * split; [intros _; right; reflexivity | reflexivity].
      * split; [discriminate | intros (s & Hs & Hne & _); injection Hs; lia].
    + apply Z.eqb_neq in E0.
      assert (Hna : forall r : option string,
                 r <> Some "N/A" -> (r = Some "N/A" <-> (Some s = None \/ Some s = Some 0))).
      { intros r Hr. split; [intros H; contradiction | intros [H|H]; [discriminate | injection H; lia]]. }
      destruct (8640000000000000 <? Z.abs (s * 1000)) eqn:E1.
      * apply Z.ltb_lt in E1. split; [apply Hna; discriminate|].
        split; [intros _; exists s; auto | reflexivity].
      * apply Z.ltb_ge in E1.
        destruct (toISOString (now - s * 1000)) as [iso|] eqn:Ei; cbn [option_map].
        -- pose proof (toISOString_length _ _ Ei) as Hlen.
           assert (Hv : Z.abs (now - s * 1000) <= 8640000000000000).
           { destruct (Z_le_gt_dec (Z.abs (now - s * 1000)) 8640000000000000) as [H|H];
               [exact H|].
             assert (toISOString (now - s * 1000) = None) by (apply toISOString_none; lia).
             congruence. }
           split.
           ++ apply Hna. intros H. injection H as H.
              pose proof (substring_length iso 11 8 ltac:(lia)) as H8.
              rewrite H in H8. discriminate H8.
           ++ split; [discriminate|].
              intros (s' & Hs' & _ & [H|H]); injection Hs' as <-; lia.
        -- apply toISOString_none in Ei. split; [apply Hna; discriminate|].
           split; [intros _; exists s; auto | reflexivity].
  - split.
    + split; [intros _; left; reflexivity | reflexivity].
    + split; [discriminate | intros (s & Hs & _); discriminate].
Qed.

End LiveScoreViewProofs.

(** * Further properties of the polling component *)

Module LiveScoreExtras.
Import LiveScore LiveScoreProofs.

Definition timer_inv (s : LS) : Prop :=
  match timer s with
  | None => isPaused s = true
  | Some (_, p) => isPaused s = false /\ p = refreshIntervalSec s * 1000
  end.

Lemma interval_effect_inv (s l : LS) :
  (isPaused s = isPaused l -> refreshIntervalSec s = refreshIntervalSec l -> timer_inv l) ->
  timer_inv (interval_effect s l).
Proof.
  intros H. unfold interval_effect.
  destruct (Bool.eqb (isPaused s) (isPaused l)
            && Nat.eqb (refreshIntervalSec s) (refreshIntervalSec l)) eqn:E.
  - apply andb_prop in E as [E1 E2].
    apply Bool.eqb_prop in E1. apply Nat.eqb_eq in E2. exact (H E1 E2).
  - destruct (isPaused l) eqn:P; unfold timer_inv; cbn; [exact P|].
    split; [exact P | reflexivity].
Qed.

Lemma handle_timer_inv (s l : LS) (e : Ev) :
  timer_inv s -> handle s e = Some l ->
  isPaused s = isPaused l -> refreshIntervalSec s = refreshIntervalSec l -> timer_inv l.
Proof.
  intros Hi Hh Hp Hr.
  destruct s as [st ss ld pa rf fl nw tm]. unfold timer_inv in *. cbn in *.
  destruct e as [|t o|t o|t]; cbn in Hh.
  - destruct tm as [[f p]|]; [|discriminate].
    destruct (Nat.leb nw f); [|discriminate].
    injection Hh as <-. cbn in *. exact Hi.
  - destruct (Nat.leb nw t); [|discriminate].
    destruct (remove_one FStats fl); [|discriminate].
    injection Hh as <-. destruct o; cbn in *; [rewrite <- Hr|]; exact Hi.
  - destruct (Nat.leb nw t); [|discriminate].
    destruct (remove_one FInfo fl); [|discriminate].
    injection Hh as <-. destruct o; cbn in *; exact Hi.
  - destruct (Nat.leb nw t); [|discriminate].
    injection Hh as <-. cbn in Hp. destruct pa; discriminate Hp.
Qed.

Lemma step_timer_inv (s s' : LS) (e : Ev) :
  timer_inv s -> step s e = Some s' -> timer_inv s'.
Proof.
  intros Hi. unfold step. destruct (handle s e) as [l|] eqn:Hh; [|discriminate].
  intros H. injection H as <-. apply interval_effect_inv.
  apply (handle_timer_inv s l e Hi Hh).
Qed.

Lemma run_timer_inv (s s' : LS) (es : list Ev) :
  timer_inv s -> run s es = Some s' -> timer_inv s'.
Proof.
  revert s. induction es as [|e es IH]; intros s Hi; cbn.
  - intros H. injection H as <-. exact Hi.
  - destruct (step s e) as [s1|] eqn:E; [|discriminate].
    apply IH. exact (step_timer_inv s s1 e Hi E).
Qed.

(** Polling effect (LiveScore.js): in every state reached from mount, an
    interval is pending exactly when the view is not paused, its period is
    always [refreshIntervalSec * 1000], and while paused no poll tick can
    fire. *)
Theorem polling_timer_invariant (t : nat) (es : list Ev) (s : LS) :
  run (mount t) es = Some s ->
  (isPaused s = true <-> timer s = None)
  /\ (forall f p, timer s = Some (f, p) -> p = refreshIntervalSec s * 1000)
  /\ (isPaused s = true -> step s Fire = None).
Proof.
  intros Hr.
  assert (Hi : timer_inv s).
  { apply (run_timer_inv (mount t) s es); [|exact Hr].
    unfold timer_inv. cbn. split; reflexivity. }
  unfold timer_inv in Hi.
  destruct (timer s) as [[f p]|] eqn:Et.
  - destruct Hi as [Hp Hq]. split; [|split].
    + rewrite Hp. split; discriminate.
    + intros f' p' H. injection H as _ <-. exact Hq.
    + rewrite Hp. discriminate.
  - split; [|split].
    + split; [reflexivity | intros _; exact Hi].
    + discriminate.
    + intros _. unfold step, handle. rewrite Et. reflexivity.
Qed.

Lemma polling_timer_invariant_witness :
  exists s, run (mount 0) [TogglePause 5] = Some s
    /\ (isPaused s = true <-> timer s = None)
    /\ (forall f p, timer s = Some (f, p) -> p = refreshIntervalSec s * 1000)
    /\ (isPaused s = true -> step s Fire = None).
Proof.
  eexists. split; [reflexivity|].
  apply (polling_timer_invariant 0 [TogglePause 5]). reflexivity.
Defined.

(** Settling a fetch never moves the pending interval unless the
    statistics response changes [refreshIntervalSec]: a public-info
    response, a failed fetch, or a statistics response carrying the current
    interval keeps the timer, so the poll cadence is not reset. *)
Theorem settle_keeps_timer (s s' : LS) (e : Ev) :
  step s e = Some s' ->
  (exists t o, e = StatsDone t o) \/ (exists t o, e = InfoDone t o) ->
  refreshIntervalSec s' = refreshIntervalSec s ->
  timer s' = timer s /\ isPaused s' = isPaused s.
Proof.
  intros Hs He Hr. unfold step in Hs.
  destruct (handle s e) as [l|] eqn:Hh; [|discriminate].
  injection Hs as <-.
  assert (Hl : timer l = timer s /\ isPaused l = isPaused s).
  { destruct He as [(t & o & ->)|(t & o & ->)]; cbn in Hh.
    - destruct (Nat.leb (now s) t); [|discriminate].
      destruct (remove_one FStats (inflight s)); [|discriminate].
      injection Hh as <-. destruct o; split; reflexivity.
    - destruct (Nat.leb (now s) t); [|discriminate].
      destruct (remove_one FInfo (inflight s)); [|discriminate].
      injection Hh as <-. destruct o; split; reflexivity. }
  destruct Hl as [Hlt Hlp].
  destruct (interval_effect_fields s l) as (_ & _ & _ & _ & Hrf & _).
  rewrite Hrf in Hr.
  rewrite interval_effect_same; [split; assumption | congruence | congruence].
Qed.

Lemma settle_keeps_timer_witness :
  exists s', step (mount 0) (InfoDone 1 Err) = Some s'
    /\ ((exists t o, InfoDone 1 Err = StatsDone t o) \/
        (exists t o, InfoDone 1 (@Err ServerState) = InfoDone t o))
    /\ refreshIntervalSec s' = refreshIntervalSec (mount 0)
    /\ timer s' = timer (mount 0) /\ isPaused s' = isPaused (mount 0).
Proof.
  eexists. split; [reflexivity|].
  assert (He : (exists t o, InfoDone 1 Err = StatsDone t o) \/
               (exists t o, InfoDone 1 (@Err ServerState) = InfoDone t o))
    by (right; exists 1, Err; reflexivity).
  split; [exact He|]. split; [reflexivity|].
  apply (settle_keeps_timer (mount 0) _ (InfoDone 1 Err)); [reflexivity | exact He | reflexivity].
Defined.

(** [nextMapString] (LiveScore.js) without vote data: the fallback tally
    [["", 0]] is compared with the next map's name, so the message is
    "Nextmap: " and the name, unless that name is the empty string, in which
    case the tally template is printed with 0 votes out of [undefined]. *)
Theorem nextMapString_without_votes (ss : ServerState) :
  vote_status ss = None ->
  (next_map_name ss = Some "" ->
     nextMapString ss = "Nextmap  with 0 out of undefined votes")
  /\ (next_map_name ss <> Some "" ->
     nextMapString ss = "Nextmap: " ++ js_str_opt (next_map_name ss)).
Proof.
  intros Hv. unfold nextMapString, top_voted, total_votes_of. rewrite Hv.
  split.
  - intros ->. reflexivity.
  - intros Hn. destruct (next_map_name ss) as [name|]; [|reflexivity].
    cbn [js_eq_str_opt]. destruct (String.eqb "" name) eqn:E; [|reflexivity].
    apply String.eqb_eq in E. subst name. contradiction Hn. reflexivity.
Qed.

Lemma nextMapString_without_votes_witness :
  vote_status (mkServerState None (Some (mkNextMap (Some (mkMapInfo (Some "Foy")))))) = None
  /\ nextMapString (mkServerState None (Some (mkNextMap (Some (mkMapInfo (Some "Foy"))))))
     = "Nextmap: Foy".
Proof.
  split; [reflexivity|].
  apply (nextMapString_without_votes
           (mkServerState None (Some (mkNextMap (Some (mkMapInfo (Some "Foy")))))) eq_refl).
  discriminate.
Defined.

End LiveScoreExtras.

(** * Further properties of the game statistics table *)

Module GameTableExtras.
Import GameTable GameTableView GameTableProofs.

(** ** Team counts *)

(** [teamCounts] (game-table.tsx): since [getTeamFromAssociation] yields one
    of the four [teamOptions], the four counts always add up to the count
    of the "all" option, [data.length]. *)
Theorem teamCounts_sum (team_of : Player -> TeamEnum) (data : list Player) :
  length (teamCounts team_of data) = 4%nat
  /\ list_sum (teamCounts team_of data) = all_count data.
Proof.
  split; [reflexivity|].
  unfold teamCounts, all_count, teamOptions. cbn [map list_sum fold_right].
  induction data as [|p data IH]; cbn; [reflexivity|].
  destruct (team_of p); cbn; lia.
Qed.

(** ** Table body *)

Lemma number_rows_length (k : nat) (rows : list Player) :
  length (number_rows k rows) = length rows.
Proof.
  revert k. induction rows as [|p rows IH]; intros k; cbn; [reflexivity|].
  rewrite IH. reflexivity.
Qed.

Lemma number_rows_nth (k i : nat) (rows : list Player) (p : Player) :
  nth_error rows i = Some p ->
  nth_error (number_rows k rows) i = Some (DataRow (k + i + 1) (row_id (player_id p)) p).
Proof.
  revert k i. induction rows as [|q rows IH]; intros k i H.
  - destruct i; discriminate H.
  - destruct i as [|i]; cbn in H |- *.
    + injection H as <-. rewrite Nat.add_0_r. reflexivity.
    + rewrite (IH (S k) i H). do 2 f_equal. lia.
Qed.

(** [TableBody] (game-table.tsx): an empty row model renders the single
    "no players" row spanning [columns.length + 1] cells; otherwise one row
    per displayed row, the [i]-th (from 0) numbered [i + 1] and carrying the
    id ["row-" ++ player_id]. *)
Theorem render_body_rows (ncolumns : nat) (rows : list Player) :
  length (render_body ncolumns rows) = Nat.max 1 (length rows)
  /\ (rows = [] -> render_body ncolumns rows = [PlaceholderRow (ncolumns + 1)])
  /\ (forall i p, nth_error rows i = Some p ->
        nth_error (render_body ncolumns rows) i
        = Some (DataRow (i + 1) (row_id (player_id p)) p)).
Proof.
  split; [|split].
  - destruct rows as [|p rows]; [reflexivity|].
    unfold render_body. rewrite number_rows_length. cbn. lia.
  - intros ->. reflexivity.
  - intros i p H. destruct rows as [|q rows]; [destruct i; discriminate H|].
    unfold render_body. apply (number_rows_nth 0 i (q :: rows) p H).
Qed.

(** ** Focusing a player of the rendered table *)

Lemma body_dom_ids (ncolumns : nat) (rows : list Player) :
  map el_id (body_dom (render_body ncolumns rows))
  = map (fun p => row_id (player_id p)) rows.
Proof.
  destruct rows as [|q rows]; [reflexivity|].
  unfold render_body, body_dom. generalize 0%nat as k.
  generalize (q :: rows) as l. clear q rows.
  induction l as [|p l IH]; intros k; [reflexivity|].
  cbn [number_rows flat_map]. cbn [app map]. f_equal. apply IH.
Qed.

Lemma getElementById_in (d : list Elem) (id : string) :
  getElementById d id <> None <-> In id (map el_id d).
Proof.
  unfold getElementById. induction d as [|e d IH]; cbn.
  - split; [intros H; contradiction H; reflexivity | intros []].
  - destruct (String.eqb (el_id e) id) eqn:E.
    + apply String.eqb_eq in E. split; [intros _; left; exact E | discriminate].
    + apply String.eqb_neq in E. rewrite IH. split; [intros H; right; exact H|].
      intros [H|H]; [contradiction | exact H].
Qed.

Lemma row_id_inj (a b : string) : row_id a = row_id b -> a = b.
Proof. unfold row_id. cbn. intros H. injection H as H. exact H. Qed.

(** [useEffect] on [focusedPlayerId] (game-table.tsx) over the rendered
    body: focusing a player shown in the table scrolls its row into view and
    schedules the removal of the highlight 2000 ms later; focusing a player
    who is not among the displayed rows (filtered out, or absent) leaves the
    whole state as it was. *)
Theorem focus_displayed_row (ncolumns : nat) (rows : list Player)
    (st : FocusState) (pid : string) :
  focusedPlayerId st = None ->
  dom st = body_dom (render_body ncolumns rows) ->
  (In pid (map player_id rows) ->
     focusedPlayerId (set_focused (Some pid) st) = None
     /\ scrolled (set_focused (Some pid) st) = (scrolled st ++ [row_id pid])%list
     /\ timeouts (set_focused (Some pid) st)
        = (timeouts st ++ [(clock st + 2000, row_id pid)])%list)
  /\ (~ In pid (map player_id rows) -> set_focused (Some pid) st = st).
Proof.
  intros Hf Hd.
  assert (Hiff : getElementById (dom st) (row_id pid) <> None <-> In pid (map player_id rows)).
  { rewrite getElementById_in, Hd, body_dom_ids. split.
    - intros H. apply in_map_iff in H as (p & Hp & Hin).
      apply row_id_inj in Hp. rewrite <- Hp. apply in_map. exact Hin.
    - intros H. apply in_map_iff in H as (p & <- & Hin).
      apply in_map_iff. exists p. split; [reflexivity | exact Hin]. }
  unfold set_focused. rewrite Hf. cbn [opt_str_eqb].
  unfold focus_effect. cbn [focusedPlayerId dom timeouts scrolled clock].
  split.
  - intros Hin. apply Hiff in Hin.
    destruct (getElementById (dom st) (row_id pid)); [|contradiction Hin; reflexivity].
    cbn. repeat split.
  - intros Hnin.
    destruct (getElementById (dom st) (row_id pid)) eqn:E.
    + exfalso. apply Hnin. apply Hiff. discriminate.
    + destruct st as [fp d ts sc ck]. cbn in Hf |- *. rewrite Hf. reflexivity.
Qed.

Definition table_rows : list Player := [mkPlayer "A" "1" 3; mkPlayer "B" "2" 7].

Definition table_focus_state : FocusState :=
  mkFocusState None (body_dom (render_body 4 table_rows)) [] [] 0.

Lemma focus_displayed_row_witness :
  (focusedPlayerId table_focus_state = None
   /\ dom table_focus_state = body_dom (render_body 4 table_rows))
  /\ set_focused (Some "3") table_focus_state = table_focus_state.
Proof.
  split; [split; reflexivity|].
  apply (focus_displayed_row 4 table_rows table_focus_state "3" eq_refl eq_refl).
  cbn. intros [H|[H|[]]]; discriminate H.
Defined.

(** ** What the highlight timeout leaves on the row *)

Lemma filter_compose {A} (f g : A -> bool) (l : list A) :
  filter f (filter g l) = filter (fun x => g x && f x) l.
Proof.
  induction l as [|x l IH]; cbn; [reflexivity|].
  destruct (g x); cbn; [destruct (f x); cbn; rewrite IH; reflexivity | exact IH].
Qed.

Lemma fold_class_remove (cs cl : list string) :
  fold_left class_remove cs cl
  = filter (fun c => negb (existsb (String.eqb c) cs)) cl.
Proof.
  revert cl. induction cs as [|c' cs IH]; intros cl; cbn.
  - induction cl as [|x cl IHl]; cbn; [reflexivity | rewrite <- IHl; reflexivity].
  - rewrite IH. unfold class_remove. rewrite filter_compose.
    apply filter_ext. intros x. destruct (String.eqb x c'); reflexivity.
Qed.

Lemma fold_class_add (cs cl : list string) :
  exists extra, fold_left class_add cs cl = (cl ++ extra)%list
    /\ forall c, In c extra -> In c cs.
Proof.
  revert cl. induction cs as [|c' cs IH]; intros cl; cbn.
  - exists []. rewrite app_nil_r. split; [reflexivity | intros c []].
  - destruct (IH (class_add cl c')) as (extra & He & Hin).
    unfold class_add in *. destruct (existsb (String.eqb c') cl).
    + exists extra. split; [exact He|]. intros c Hc. right. exact (Hin c Hc).
    + exists (c' :: extra). rewrite He, <- app_assoc. split; [reflexivity|].
      intros c [<-|Hc]; [left; reflexivity | right; exact (Hin c Hc)].
Qed.

Lemma filter_none {A} (f : A -> bool) (l : list A) :
  (forall x, In x l -> f x = false) -> filter f l = [].
Proof.
  induction l as [|x l IH]; intros H; cbn; [reflexivity|].
  rewrite (H x (or_introl eq_refl)). apply IH. intros y Hy. apply H. right. exact Hy.
Qed.

Lemma filter_all_true {A} (f : A -> bool) (l : list A) :
  (forall x, In x l -> f x = true) -> filter f l = l.
Proof.
  induction l as [|x l IH]; intros H; cbn; [reflexivity|].
  rewrite (H x (or_introl eq_refl)), IH; [reflexivity|].
  intros y Hy. apply H. right. exact Hy.
Qed.

Lemma remove_after_add (cs cl : list string) :
  fold_left class_remove cs (fold_left class_add cs cl)
  = filter (fun c => negb (existsb (String.eqb c) cs)) cl.
Proof.
  destruct (fold_class_add cs cl) as (extra & -> & Hin).
  rewrite fold_class_remove, filter_app, (filter_none _ extra), app_nil_r; [reflexivity|].
  intros c Hc. apply negb_false_iff, existsb_exists. exists c.
  split; [exact (Hin c Hc) | apply String.eqb_refl].
Qed.

(** The highlight of the focus effect (game-table.tsx): from an unfocused
    state with no highlight removal pending for the row (removals pending
    for other rows are allowed), once the 2000 ms timeout has run the row's
    classes are its classes before the focus with every highlight class
    taken out; so a row holding none of the highlight classes (as the rows
    [TableBody] renders, ["text-sm h-10"]) gets its exact classes back,
    while a highlight class the row already had is lost. *)
Theorem highlight_restores_classes (st : FocusState) (pid : string) (cl : list string) :
  focusedPlayerId st = None ->
  (forall a, ~ In (a, row_id pid) (timeouts st)) ->
  classes_of (dom st) (row_id pid) = Some cl ->
  classes_of (dom (advance (clock st + 2000) (set_focused (Some pid) st))) (row_id pid)
  = Some (filter (fun c => negb (existsb (String.eqb c) highlight_style)) cl)
  /\ ((forall c, In c cl -> ~ In c highlight_style) ->
      classes_of (dom (advance (clock st + 2000) (set_focused (Some pid) st))) (row_id pid)
      = Some cl).
Proof.
  intros Hf Hno Hc.
  unfold classes_of in Hc.
  destruct (getElementById (dom st) (row_id pid)) as [e|] eqn:E; [|discriminate Hc].
  injection Hc as Hc.
  assert (Hr : classes_of (dom (advance (clock st + 2000) (set_focused (Some pid) st))) (row_id pid)
               = Some (filter (fun c => negb (existsb (String.eqb c) highlight_style)) cl)).
  { unfold set_focused. rewrite Hf. cbn [opt_str_eqb].
    unfold focus_effect. cbn [focusedPlayerId dom timeouts scrolled clock]. rewrite E.
    unfold classes_of. rewrite advance_dom. cbn [timeouts dom clock].
    rewrite fire_due_snoc by lia.
    rewrite getElementById_update by reflexivity.
    rewrite fire_due_keeps by (intros a Ha; exfalso; exact (Hno a Ha)).
    rewrite getElementById_update by reflexivity. rewrite E. cbn [option_map].
    unfold remove_classes, add_classes. cbn [el_id classList].
    rewrite remove_after_add, Hc. reflexivity. }
  split; [exact Hr|].
  intros Hdis. rewrite Hr. f_equal.
  apply filter_all_true. intros c Hin. apply negb_true_iff.
  destruct (existsb (String.eqb c) highlight_style) eqn:Ex; [|reflexivity].
  apply existsb_exists in Ex as (c' & Hc' & Heq). apply String.eqb_eq in Heq. subst c'.
  exfalso. exact (Hdis c Hin Hc').
Qed.

Definition outlined_dom : list Elem :=
  [mkElem "row-1" ["text-sm"; "outline"]; mkElem "row-2" ["text-sm"]].

(** Row 1 already carries "outline" and a removal is pending for row 2. *)
Definition outlined_state : FocusState := mkFocusState None outlined_dom [(700, "row-2")] [] 0.

Lemma highlight_restores_classes_witness :
  (focusedPlayerId outlined_state = None
   /\ timeouts outlined_state = [(700, "row-2")]
   /\ classes_of outlined_dom (row_id "1") = Some ["text-sm"; "outline"])
  /\ classes_of (dom (advance (0 + 2000) (set_focused (Some "1") outlined_state)))
                (row_id "1") = Some ["text-sm"].
Proof.
  split; [split; [reflexivity | split; reflexivity]|].
  apply (highlight_restores_classes outlined_state "1" ["text-sm"; "outline"] eq_refl
           ltac:(intros a [H|[]]; discriminate H) eq_refl).
Defined.

End GameTableExtras.

(** * Further properties of [SubList] *)

Module SubListExtras.
Import SubList SubListProofs.

Lemma filter_insert_by {A} (before : A -> A -> bool) (P : A -> bool) (x : A) (l : list A) :
  (forall y, P x = true -> P y = true -> before y x = false) ->
  filter P (insert_by before x l) = filter P (x :: l).
Proof.
  intros Htie. induction l as [|y l IH]; cbn; [reflexivity|].
  destruct (before y x) eqn:Eb.
  - cbn. rewrite IH. cbn.
    destruct (P x) eqn:Px, (P y) eqn:Py; try reflexivity.
    rewrite (Htie y eq_refl Py) in Eb. discriminate Eb.
  - reflexivity.
Qed.

Lemma filter_sort_by {A} (before : A -> A -> bool) (P : A -> bool) (l : list A) :
  (forall x y, P x = true -> P y = true -> before y x = false) ->
  filter P (sort_by before l) = filter P l.
Proof.
  intros Htie. induction l as [|x l IH]; cbn; [reflexivity|].
  rewrite filter_insert_by by (intros y; apply Htie). cbn. rewrite IH. reflexivity.
Qed.

Lemma filter_rev {A} (P : A -> bool) (l : list A) : filter P (rev l) = rev (filter P l).
Proof.
  induction l as [|x l IH]; cbn; [reflexivity|].
  rewrite filter_app, IH. cbn. destruct (P x); cbn; [reflexivity | apply app_nil_r].
Qed.

(** [data.sort().reverse()] (game-table.tsx, [SubList]): Immutable's sort is
    stable, so the entries sharing one value keep their input order through
    [sort()] and come out in reverse input order after [reverse()]. *)
Theorem sublist_value_ties_reversed (data : ScoreMap) (v : nat) :
  filter (fun e => Nat.eqb (snd e) v) (rendered_entries false data)
  = rev (filter (fun e => Nat.eqb (snd e) v) data).
Proof.
  cbn [rendered_entries]. rewrite filter_rev. f_equal.
  unfold sort_values, sortFactory. apply filter_sort_by.
  intros x y Hx Hy. apply Nat.eqb_eq in Hx, Hy.
  unfold cmp_number. rewrite Hx, Hy, Nat.compare_refl. reflexivity.
Qed.

End SubListExtras.
